(** * Retry wrappers and the tool-dispatch loop of the two scripts

    A shallow embedding of [youtube_summarizer.py] and [tool_use.py].
    Python integers are [Z]; the float ceiling of the backoff generator is a
    rational or one of the special floats; strings are [string]; every
    [while True] loop is a fixpoint on an iteration budget, with [Diverge] for
    a budget that ran out.  The world outside the scripts (the remote
    assistant, the caption source, the clock) is an explicit oracle and an
    explicit log.  Calls of the logger are left out: they return nothing and
    decide nothing.  The inputs of a capability are strings, as the two
    schemas of the demo declare them. *)

From Stdlib Require Import ZArith QArith Qround Lia.
From stdpp Require Import base option list strings gmap.

Set Warnings "-register-all".
Local Open Scope Z_scope.

(** ** Python basics shared by both scripts *)

Module Py.

(** The exceptions the scripts raise, catch or let through. *)
Inductive exn : Type :=
| RateLimitError
| InternalServerError
| StopIteration
| KeyError (key : string)
| TypeError
| ValueError
| OtherError (name : string).

(** What running a piece of Python gives: a value, an exception, or no
    answer within the iteration budget. *)
Inductive outcome (A : Type) : Type :=
| Ret (a : A)
| Raise (e : exn)
| Diverge.
Arguments Ret {A} a.
Arguments Raise {A} e.
Arguments Diverge {A}.

(** [except RateLimitError] and [except InternalServerError]. *)
Definition is_rate_limit (e : exn) : bool :=
  match e with RateLimitError => true | _ => false end.
Definition is_server_error (e : exn) : bool :=
  match e with InternalServerError => true | _ => false end.
Definition transient (e : exn) : bool := is_rate_limit e || is_server_error e.

(** A content segment of a reply: text, or a request to run a named
    capability with a dict of inputs. *)
Inductive block : Type :=
| TextBlock (text : string)
| ToolUseBlock (id name : string) (input : gmap string string).

(** [block.type]. *)
Definition block_type (b : block) : string :=
  match b with
  | TextBlock _ => "text"
  | ToolUseBlock _ _ _ => "tool_use"
  end.

(** A reply of the remote assistant. *)
Record response : Type := { content : list block; stop_reason : string }.

(** The values that travel through [*args] and [**kwargs]. *)
Inductive pyval : Type :=
| PNone
| PStr (s : string)
| PInt (z : Z)
| PList (items : list pyval)
| PDict (fields : list (string * pyval)).

(** The longest duration [time.sleep] takes: the whole seconds whose
    nanoseconds still fit a signed 64-bit count. *)
Definition max_sleep : Z := 9223372036.

(** [needle in hay] on [str]: some suffix of [hay] starts with [needle]. *)
Fixpoint contains (needle hay : string) : bool :=
  String.prefix needle hay ||
  match hay with
  | EmptyString => false
  | String _ rest => contains needle rest
  end.

End Py.

(** ** youtube_summarizer.py *)

Module Summarizer.
Import Py.

(** [max_wait_time]: an [int], a finite [float] (both exact rationals) or one
    of the special floats; the default is [float("inf")]. *)
Inductive ceiling : Type :=
| Finite (q : Q)
| PosInf
| NegInf
| NaN.

(** [b <= max_wait_time], an exact comparison of an [int] with a number. *)
Definition le_ceiling (b : Z) (c : ceiling) : bool :=
  match c with
  | Finite q => Qle_bool (inject_Z b) q
  | PosInf => true
  | NegInf => false
  | NaN => false
  end.

(** The generator object of [fibonacci_wait_times]: not yet started, or
    suspended at its [yield a] with the locals [a] and [b]. *)
Inductive generator : Type :=
| Fresh
| Suspended (a b : Z).

(** The code between two [yield]s: [if b <= max_wait_time: (a, b) = (b, a + b)]. *)
Definition advance (c : ceiling) (ab : Z * Z) : Z * Z :=
  let '(a, b) := ab in
  if le_ceiling b c then (b, a + b) else (a, b).

(** [next(sleep_time_generator)]: run up to the next [yield a]. *)
Definition next (c : ceiling) (g : generator) : Z * generator :=
  match g with
  | Fresh => (0, Suspended 0 1)
  | Suspended a b => let '(a', b') := advance c (a, b) in (a', Suspended a' b')
  end.

(** The locals [(a, b)] at the [n]-th [yield] (counting from 0). *)
Fixpoint locals (c : ceiling) (n : nat) : Z * Z :=
  match n with
  | O => (0, 1)
  | S k => advance c (locals c k)
  end.

(** The generator after [n] calls of [next], and the [n]-th value it emits. *)
Fixpoint after (c : ceiling) (n : nat) : generator :=
  match n with
  | O => Fresh
  | S k => snd (next c (after c k))
  end.
Definition wait (c : ceiling) (n : nat) : Z := fst (next c (after c n)).

(** Growth has stopped at the [n]-th [yield]: the guard [b <= max_wait_time]
    fails there. *)
Definition frozen (c : ceiling) (n : nat) : bool :=
  negb (le_ceiling (snd (locals c n)) c).

(** A value lies strictly above the ceiling (false against [nan]). *)
Definition above (z : Z) (c : ceiling) : bool :=
  match c with
  | Finite q => negb (Qle_bool (inject_Z z) q)
  | PosInf => false
  | NegInf => true
  | NaN => false
  end.

(** The world a wrapped function runs in: whatever the function itself
    touches ([env]) and the durations handed to [time.sleep], oldest first. *)
Record world (Env : Type) : Type := { env : Env; slept : list Z }.
Arguments env {Env} w.
Arguments slept {Env} w.

(** [time.sleep(secs)]: a duration too large for the clock, either way,
    raises [OverflowError], a negative one [ValueError]. *)
Definition sleep {Env} (secs : Z) (w : world Env) : outcome unit * world Env :=
  if (secs <? - max_sleep) || (max_sleep <? secs)
  then (Raise (OtherError "OverflowError"), w)
  else if secs <? 0 then (Raise ValueError, w)
  else (Ret tt, {| env := env w; slept := slept w ++ [secs] |}).

Section WithRetries.
(** [with_retries(max_wait_time)(func)] *)
Variable max_wait_time : ceiling.
Context {Env R : Type}.
Variable func :
  list pyval -> list (string * pyval) -> world Env -> outcome R * world Env.

(** The call of line 89, [func( *args, *kwargs )]: the second star is a single
    one, so the keys of [kwargs] follow [args] as positional arguments and
    no keyword argument is passed. *)
Definition call_func (args : list pyval) (kwargs : list (string * pyval))
  : world Env -> outcome R * world Env :=
  func (args ++ map (fun kv => PStr (fst kv)) kwargs) [].

(** An [except] handler: sleep, then [continue] with [k]. *)
Definition sleep_then (secs : Z) (w : world Env)
    (k : world Env -> outcome R * world Env) : outcome R * world Env :=
  match sleep secs w with
  | (Ret _, w') => k w'
  | (Raise e, w') => (Raise e, w')
  | (Diverge, w') => (Diverge, w')
  end.

(** The [while True] of [wrapper], with the generator object it polls. *)
Fixpoint wrapper_loop (fuel : nat) (g : generator)
    (args : list pyval) (kwargs : list (string * pyval)) (w : world Env)
  : outcome R * world Env :=
  match fuel with
  | O => (Diverge, w)
  | S fuel' =>
      match call_func args kwargs w with
      | (Ret r, w1) => (Ret r, w1)
      | (Raise e, w1) =>
          if is_rate_limit e then
            let '(t, g') := next max_wait_time g in
            sleep_then t w1 (wrapper_loop fuel' g' args kwargs)
          else if is_server_error e then
            let '(t, g') := next max_wait_time g in
            sleep_then (t + 30) w1 (wrapper_loop fuel' g' args kwargs)
          else (Raise e, w1)
      | (Diverge, w1) => (Diverge, w1)
      end
  end.

Definition wrapper (fuel : nat) := wrapper_loop fuel Fresh.
End WithRetries.

(** What the summarizer's own functions touch: the [messages] argument of
    every request made to the remote assistant, the URLs fetched, and the
    lines printed. *)
Record io : Type :=
  { requests : list pyval; fetched : list string; printed : list string }.

Definition state := world io.

Definition log_request (m : pyval) (w : state) : state :=
  {| env := {| requests := requests (env w) ++ [m];
               fetched := fetched (env w);
               printed := printed (env w) |};
     slept := slept w |}.
Definition log_fetch (url : string) (w : state) : state :=
  {| env := {| requests := requests (env w);
               fetched := fetched (env w) ++ [url];
               printed := printed (env w) |};
     slept := slept w |}.
Definition print (line : string) (w : state) : state :=
  {| env := {| requests := requests (env w);
               fetched := fetched (env w);
               printed := printed (env w) ++ [line] |};
     slept := slept w |}.

(** [d[key]] of a keyword dict. *)
Fixpoint kw_lookup (key : string) (kwargs : list (string * pyval)) : option pyval :=
  match kwargs with
  | [] => None
  | (k, v) :: rest => if String.eqb k key then Some v else kw_lookup key rest
  end.

(** Binding a call to [def ask_claude(new_message, messages: list = [])];
    [None] is the [TypeError] of a call that does not fit the signature. *)
Definition bind_ask_claude (args : list pyval) (kwargs : list (string * pyval))
  : option (pyval * pyval) :=
  if forallb (fun kv => String.eqb (fst kv) "new_message"
                        || String.eqb (fst kv) "messages") kwargs
  then
    match args with
    | [] =>
        match kw_lookup "new_message" kwargs with
        | Some nm => Some (nm, default (PList []) (kw_lookup "messages" kwargs))
        | None => None
        end
    | [nm] =>
        match kw_lookup "new_message" kwargs with
        | Some _ => None
        | None => Some (nm, default (PList []) (kw_lookup "messages" kwargs))
        end
    | [nm; ms] =>
        match kwargs with
        | [] => Some (nm, ms)
        | _ :: _ => None
        end
    | _ => None
    end
  else None.

(** [messages + [new_message]]: only a list can be added to a list. *)
Definition py_add_list (x : pyval) (l : list pyval) : option pyval :=
  match x with
  | PList items => Some (PList (items ++ l))
  | _ => None
  end.

Section Script.
(** The remote assistant: what the [k]-th request (from 0) gives. *)
Variable remote : nat -> exn + response.
(** The caption source: [ydl.extract_info(video_url, download=False)]
    reduced to its ["requested_subtitles"] entry, which is [None] or a dict
    from language to [None] or a dict of fields. *)
Variable extract_info :
  string -> exn + option (gmap string (option (gmap string string))).
(** [requests.get(url, stream=True).text] *)
Variable http_get : string -> exn + string.

(** The undecorated [ask_claude] (lines 115-134). *)
Definition ask_claude_func (args : list pyval) (kwargs : list (string * pyval))
    (w : state) : outcome (response * pyval) * state :=
  match bind_ask_claude args kwargs with
  | None => (Raise TypeError, w)
  | Some (new_message, messages) =>
      match py_add_list messages [new_message] with
      | None => (Raise TypeError, w)
      | Some new_messages =>
          let w' := log_request new_messages w in
          match remote (length (requests (env w))) with
          | inl e => (Raise e, w')
          | inr resp => (Ret (resp, new_messages), w')
          end
      end
  end.

(** [@with_retries(max_wait_time=60) def ask_claude ...] *)
Definition ask_claude (fuel : nat) :=
  wrapper (Finite 60) ask_claude_func fuel.

(** [download_captions] (lines 137-166); the result is [None] or the text. *)
Definition download_captions (video_url : string) (w : state)
  : outcome (option string) * state :=
  match extract_info video_url with
  | inl e => (Raise e, w)
  | inr None => (Ret None, w)
  | inr (Some subs) =>
      if decide (subs = ∅) then (Ret None, w)
      else
        match subs !! "en" with
        | None => (Raise (KeyError "en"), w)
        | Some None => (Ret None, w)
        | Some (Some en) =>
            if decide (en = ∅) then (Ret None, w)
            else
              match en !! "url" with
              | None => (Raise (KeyError "url"), w)
              | Some url =>
                  match http_get url with
                  | inl e => (Raise e, log_fetch url w)
                  | inr text => (Ret (Some text), log_fetch url w)
                  end
              end
        end
  end.

(** The caption source reports no English captions: the branch of line 164,
    where [download_captions] logs the error and returns [None]. *)
Definition no_english_captions (video_url : string) : Prop :=
  match extract_info video_url with
  | inl _ => False
  | inr None => True
  | inr (Some subs) =>
      subs = ∅ \/ subs !! "en" = Some None \/ subs !! "en" = Some (Some ∅)
  end.

Definition summary_request (captions : string) : pyval :=
  PDict [("role", PStr "user");
         ("content",
          PList [PDict [("type", PStr "text"); ("text", PStr captions)];
                 PDict [("type", PStr "text");
                        ("text", PStr "Can you summarize the video?")]])].

(** [main] (lines 169-182). *)
Definition main (fuel : nat) (video_url : string) (w : state)
  : outcome unit * state :=
  match download_captions video_url w with
  | (Ret None, w1) => (Ret tt, w1)
  | (Ret (Some captions), w1) =>
      if decide (captions = EmptyString) then (Ret tt, w1)
      else
        match ask_claude fuel [summary_request captions] [] w1 with
        | (Ret (resp, _), w2) =>
            match content resp with
            | [] => (Raise (OtherError "IndexError"), w2)
            | TextBlock text :: _ => (Ret tt, print text w2)
            | ToolUseBlock _ _ _ :: _ => (Raise (OtherError "AttributeError"), w2)
            end
        | (Raise e, w2) => (Raise e, w2)
        | (Diverge, w2) => (Diverge, w2)
        end
  | (Raise e, w1) => (Raise e, w1)
  | (Diverge, w1) => (Diverge, w1)
  end.
End Script.

End Summarizer.

(** ** tool_use.py *)

Module ToolUse.
Import Py.

(** The user's content of a tool round: one [tool_result] dict. *)
Record tool_result : Type := { tool_use_id : string; result : string }.

(** The ["content"] of a turn: the opening question (a [str]), a list of
    tool results, or the content segments of a reply. *)
Inductive payload : Type :=
| Text (s : string)
| ToolResults (results : list tool_result)
| Blocks (segments : list block).

(** A turn: [{"role": ..., "content": ...}]. *)
Record message : Type := { role : string; body : payload }.

(** What the script prints. *)
Inductive event : Type :=
| PrintedToolUse (tool_name : string) (input : gmap string string)
| PrintedThinking (thoughts : string)
| PrintedRateLimit (sleep_time : Z)
| PrintedResponse (segments : list block).

(** A list object of turns is a location in [heap]; [sent] holds the
    [messages] argument of every request as it was when sent, [slept] the
    durations handed to [time.sleep], [out] the printed lines; all three
    oldest first. *)
Abbreviation loc := nat.
Record world : Type :=
  { heap : list (list message);
    sent : list (list message);
    slept : list Z;
    out : list event }.

(** Computations of the script. *)
Definition M (A : Type) : Type := world -> outcome A * world.

Definition ret {A} (a : A) : M A := fun w => (Ret a, w).
Definition raise {A} (e : exn) : M A := fun w => (Raise e, w).
Definition diverge {A} : M A := fun w => (Diverge, w).
Definition bind {A B} (c : M A) (k : A -> M B) : M B :=
  fun w =>
    match c w with
    | (Ret a, w') => k a w'
    | (Raise e, w') => (Raise e, w')
    | (Diverge, w') => (Diverge, w')
    end.

(** [try: c except ...: h]; [h e = None] when no clause catches [e]. *)
Definition try_except {A} (c : M A) (h : exn -> option (M A)) : M A :=
  fun w =>
    match c w with
    | (Raise e, w') =>
        match h e with
        | Some handler => handler w'
        | None => (Raise e, w')
        end
    | r => r
    end.

Declare Scope py_scope.
Delimit Scope py_scope with py.
Notation "x <- c1 ;; c2" := (bind c1 (fun x => c2))
  (at level 100, c1 at next level, right associativity) : py_scope.
Notation "c1 ;;; c2" := (bind c1 (fun _ => c2))
  (at level 100, right associativity) : py_scope.
Local Open Scope py_scope.

Definition print (e : event) : M unit :=
  fun w => (Ret tt, {| heap := heap w; sent := sent w; slept := slept w;
                       out := out w ++ [e] |}).

(** [time.sleep(secs)]: a duration too large for the clock, either way,
    raises [OverflowError], a negative one [ValueError]. *)
Definition sleep (secs : Z) : M unit :=
  fun w =>
    if (secs <? - max_sleep) || (max_sleep <? secs)
    then (Raise (OtherError "OverflowError"), w)
    else if secs <? 0 then (Raise ValueError, w)
    else (Ret tt, {| heap := heap w; sent := sent w;
                     slept := slept w ++ [secs]; out := out w |}).

(** A new list object. *)
Definition alloc (items : list message) : M loc :=
  fun w => (Ret (length (heap w)),
            {| heap := heap w ++ [items]; sent := sent w;
               slept := slept w; out := out w |}).

(** The items of a list object (a reference always points to one). *)
Definition read (l : loc) : M (list message) :=
  fun w => (Ret (default [] (heap w !! l)), w).

(** [l.append(item)], in place. *)
Definition append (l : loc) (item : message) : M unit :=
  fun w => (Ret tt,
            {| heap := <[l := default [] (heap w !! l) ++ [item]]> (heap w);
               sent := sent w; slept := slept w; out := out w |}).

(** The line feed of ["\n"]. *)
Definition nl : string := String (Ascii.ascii_of_nat 10) EmptyString.

(** [get_weather] (lines 48-60). *)
Definition get_weather (input : string) : string :=
  if contains "Northsborough" input then "Did you mean Northborough, MA?"
  else "It's 70 and sunny in " +:+ input +:+ "!".

(** [get_facts] (lines 63-73). *)
Definition get_facts (input : string) : string :=
  "Here are some facts about " +:+ input +:+ ":" +:+ nl
  +:+ "- It is the most sought-after attraction in all of Northsborough, New Hampshire" +:+ nl
  +:+ "- 90% of participants love it!" +:+ nl
  +:+ "- It's purple" +:+ nl
  +:+ "- It is located in Northsborough, which is a small unincorporated area in New Hampshire that may not show up on your maps. It is NOT located in Northborough, MA. Ask locals for directions!".

(** [input[key]] *)
Definition subscript (input : gmap string string) (key : string) : M string :=
  match input !! key with
  | Some v => ret v
  | None => raise (KeyError key)
  end.

(** [handle_tool_use] (lines 22-45). *)
Definition handle_tool_use (tool_name : string) (input : gmap string string)
  : M string :=
  print (PrintedToolUse tool_name input) ;;;
  if String.eqb tool_name "get_weather" then
    location <- subscript input "location" ;; ret (get_weather location)
  else if String.eqb tool_name "get_facts" then
    topic <- subscript input "topic" ;; ret (get_facts topic)
  else ret "n/a".

Section Script.
(** The remote assistant: what the [k]-th request (from 0) gives. *)
Variable remote : nat -> exn + response.
(** What the statement of line 90, [raise RateLimitError("Rate Limit Error",)],
    raises: [RateLimitError] when the library's constructor accepts a lone
    message, the constructor's own failure otherwise. *)
Variable raised : exn.

(** [client.beta.tools.messages.create(..., messages=new_messages)] *)
Definition create (new_messages : loc) : M response :=
  fun w =>
    let w' := {| heap := heap w;
                 sent := sent w ++ [default [] (heap w !! new_messages)];
                 slept := slept w; out := out w |} in
    match remote (length (sent w)) with
    | inl e => (Raise e, w')
    | inr resp => (Ret resp, w')
    end.

(** [ask_claude] (lines 100-148). *)
Definition ask_claude (new_message : message) (messages : loc)
  : M (response * loc) :=
  old <- read messages ;;
  new_messages <- alloc (old ++ [new_message]) ;;
  resp <- create new_messages ;;
  ret (resp, new_messages).

(** [ask_claude_with_retries] (lines 76-97): the [try] body raises before
    it reaches its [return]. *)
Fixpoint ask_claude_with_retries (fuel : nat)
    (new_message : message) (messages : loc) : M (response * loc) :=
  match fuel with
  | O => diverge
  | S fuel' =>
      try_except
        (raise (A := unit) raised ;;;
         ask_claude new_message messages)
        (fun e =>
           if is_rate_limit e then
             Some (print (PrintedRateLimit 10) ;;;
                   sleep 10 ;;;
                   ask_claude_with_retries fuel' new_message messages)
           else None)
  end.

(** [next(block for block in blocks if block.type == "text").text] *)
Fixpoint first_text (blocks : list block) : M string :=
  match blocks with
  | [] => raise StopIteration
  | TextBlock text :: _ => ret text
  | ToolUseBlock _ _ _ :: rest => first_text rest
  end.

(** [next(block for block in blocks if block.type == "tool_use")] *)
Fixpoint first_tool_use (blocks : list block)
  : M (string * string * gmap string string) :=
  match blocks with
  | [] => raise StopIteration
  | ToolUseBlock id name input :: _ => ret (id, name, input)
  | TextBlock _ :: rest => first_tool_use rest
  end.

(** The [tool_use] branch of the loop body (lines 171-186): the next
    [user_content]. *)
Definition dispatch (resp : response) : M payload :=
  (if decide (1 < length (content resp))%nat then
     thoughts <- first_text (content resp) ;;
     print (PrintedThinking thoughts)
   else ret tt) ;;;
  tool_use <- first_tool_use (content resp) ;;
  let '(id, name, input) := tool_use in
  tool_response <- handle_tool_use name input ;;
  ret (ToolResults [{| tool_use_id := id; result := tool_response |}]).

Section Loop.
(** The callee of line 168. *)
Variable ask : message -> loc -> M (response * loc).

(** The [while True] of [main] (lines 166-189). *)
Fixpoint main_loop (fuel : nat) (user_content : payload) (messages : loc)
  : M response :=
  match fuel with
  | O => diverge
  | S fuel' =>
      let new_message := {| role := "user"; body := user_content |} in
      reply <- ask new_message messages ;;
      let '(resp, messages) := reply in
      append messages
        {| role := "assistant"; body := Blocks (content resp) |} ;;;
      if String.eqb (stop_reason resp) "tool_use" then
        user_content <- dispatch resp ;;
        main_loop fuel' user_content messages
      else ret resp
  end.

Definition opening : string :=
  "I want to go see the Percy Balloon. I generally like things that are orange, but I'm not sure what color it is. I could be persuaded to see something in another color if it's popular enough. The weather also might be awful. Should I go?".

(** [main] (lines 151-191), over the callee. *)
Definition main_with (fuel : nat) : M unit :=
  messages <- alloc [] ;;
  resp <- main_loop fuel (Text opening) messages ;;
  print (PrintedResponse (content resp)).
End Loop.

(** [main] as the script has it. *)
Definition main (fuel : nat) : M unit :=
  main_with (ask_claude_with_retries fuel) fuel.
End Script.

Definition initial : world := {| heap := []; sent := []; slept := []; out := [] |}.

(** Every list object of [h] is still there in [h'], with the same items at
    the same positions and possibly more behind them. *)
Definition grows (h h' : list (list message)) : Prop :=
  forall (l : loc) (items : list message),
    h !! l = Some items -> exists more, h' !! l = Some (items ++ more).

(** Each sequence of [log] extends the one before it, the first one [start]. *)
Fixpoint chain (start : list message) (log : list (list message)) : Prop :=
  match log with
  | [] => True
  | s :: rest => start `prefix_of` s /\ chain s rest
  end.

(** The [tool_use] branch succeeds on a reply, whatever the world. *)
Definition dispatches (resp : response) : Prop :=
  forall w, exists user_content w', dispatch resp w = (Ret user_content, w').

(** A computation that leaves the list objects and the requests alone. *)
Definition quiet {A} (c : M A) : Prop :=
  forall w, heap (snd (c w)) = heap w /\ sent (snd (c w)) = sent w.

End ToolUse.

(** ** Sample inputs *)

Module Samples.
Import Py.

(** A unit of work that fails with a [KeyError] whatever it is given. *)
Definition failing_work (args : list pyval) (kwargs : list (string * pyval))
    (w : Summarizer.world unit) : outcome unit * Summarizer.world unit :=
  (Raise (KeyError "claude_key"), w).

(** A remote assistant that answers every request at once. *)
Definition obliging (k : nat) : exn + response :=
  inr {| content := [TextBlock "summary"]; stop_reason := "end_turn" |}.

Definition fresh_state : Summarizer.state :=
  {| Summarizer.env :=
       {| Summarizer.requests := []; Summarizer.fetched := [];
          Summarizer.printed := [] |};
     Summarizer.slept := [] |}.

(** A caption source that has no subtitles for the video. *)
Definition no_subtitles (video_url : string)
  : exn + option (gmap string (option (gmap string string))) := inr None.

Definition unreachable_host (url : string) : exn + string :=
  inl (OtherError "ConnectionError").

(** A reply that asks for a capability the demo does not have. *)
Definition asks_the_time : response :=
  {| content := [ToolUseBlock "toolu_1" "get_time" ∅];
     stop_reason := "tool_use" |}.

(** A reply with two such requests and no text. *)
Definition asks_twice : response :=
  {| content := [ToolUseBlock "toolu_1" "get_time" ∅;
                 ToolUseBlock "toolu_2" "get_date" ∅];
     stop_reason := "tool_use" |}.

Definition final_answer : response :=
  {| content := [TextBlock "Go and see it."]; stop_reason := "end_turn" |}.

(** A remote assistant that asks for the time once and then answers. *)
Definition time_then_answer (k : nat) : exn + response :=
  match k with
  | O => inr asks_the_time
  | S _ => inr final_answer
  end.

(** The world of the tool demo once [messages = []] has run. *)
Definition started : ToolUse.world :=
  {| ToolUse.heap := [[]]; ToolUse.sent := []; ToolUse.slept := [];
     ToolUse.out := [] |}.

End Samples.

(** ** Reference notions for the further properties *)

Module Reference.
Import Py.

(** The Fibonacci numbers, [0, 1, 1, 2, 3, 5, ...]. *)
Fixpoint fib (n : nat) : Z :=
  match n with
  | O => 0
  | S k =>
      match k with
      | O => 1
      | S j => fib k + fib j
      end
  end.

(** The extra seconds of line 100 when the answer to a request is a
    server-side failure. *)
Definition penalty (answer : exn + response) : Z :=
  match answer with
  | inl InternalServerError => 30
  | _ => 0
  end.

End Reference.

(** ** The command line of the summarizer *)

Module Cli.
Import Py Summarizer.

(** How the process ends: [sys.exit(code)], or the end of [main]. *)
Inductive ending : Type :=
| Exit (code : Z)
| Ran (o : outcome unit).

Definition url_prefix : string := "https://www.youtube.com/watch?v=".

Section Script.
Variable remote : nat -> exn + response.
Variable extract_info :
  string -> exn + option (gmap string (option (gmap string string))).
Variable http_get : string -> exn + string.

(** The [if __name__ == "__main__":] block (lines 185-197), over [sys.argv]. *)
Definition script (argv : list string) (fuel : nat) (w : state)
  : ending * state :=
  if decide (length argv <> 2%nat) then (Exit 1, w)
  else
    match argv !! 1%nat with
    | None => (Ran (Raise (OtherError "IndexError")), w)
    | Some video_url =>
        if negb (String.prefix url_prefix video_url) then (Exit 1, w)
        else
          let '(o, w') := main remote extract_info http_get fuel video_url w in
          (Ran o, w')
    end.
End Script.

End Cli.

(** ** The capability descriptors of the tool demo *)

Module Schemas.
Import Py.

(** A descriptor as [ask_claude] sends it: the name, the keys of
    ["properties"] and the list ["required"] of its input schema. *)
Record descriptor : Type :=
  { tool_name : string; properties : list string; required : list string }.

(** The [tools] argument of lines 116-145. *)
Definition tools : list descriptor :=
  [ {| tool_name := "get_weather";
       properties := ["location"]; required := ["location"] |};
    {| tool_name := "get_facts";
       properties := ["topic"]; required := ["location"] |} ].

(** An input has every key the descriptor of that name requires. *)
Definition has_required (name : string) (input : gmap string string) : Prop :=
  exists d, d ∈ tools /\ tool_name d = name
            /\ Forall (fun key => is_Some (input !! key)) (required d).

End Schemas.

(** ** The shape of a conversation *)

Module Conversation.
Import Py ToolUse.

(** The roles of the turns alternate, beginning with the user when
    [user_next] is set and with the assistant otherwise. *)
Fixpoint alternates (user_next : bool) (turns : list message) : bool :=
  match turns with
  | [] => true
  | turn :: rest =>
      String.eqb (role turn) (if user_next then "user" else "assistant")
      && alternates (negb user_next) rest
  end.

(** What a request must look like: user and assistant in turn, the user
    first and last. *)
Definition well_formed (turns : list message) : Prop :=
  alternates true turns = true /\ Nat.odd (length turns) = true.

End Conversation.

(** ** Further sample inputs *)

Module MoreSamples.
Import Py.

(** A remote assistant that is rate-limited once, fails once on its own
    side, and answers from then on. *)
Definition flaky (k : nat) : exn + response :=
  match k with
  | O => inl RateLimitError
  | S O => inl InternalServerError
  | S (S _) => inr Samples.final_answer
  end.

(** A caption source with an English track, and the host that serves it. *)
Definition english_track (video_url : string)
  : exn + option (gmap string (option (gmap string string))) :=
  inr (Some {[ "en" := Some {[ "url" := "https://captions.example/en.vtt" ]} ]}).

Definition serves_captions (url : string) : exn + string :=
  inr "WEBVTT hello world".

(** A reply with a thought and two requests for capabilities the demo does
    not have. *)
Definition thinks_and_asks_twice : response :=
  {| content := [TextBlock "Let me check.";
                 ToolUseBlock "toolu_1" "get_time" ∅;
                 ToolUseBlock "toolu_2" "get_date" ∅];
     stop_reason := "tool_use" |}.

(** A reply that asks for the weather in Boston. *)
Definition asks_the_weather : response :=
  {| content := [TextBlock "I should look at the weather.";
                 ToolUseBlock "toolu_7" "get_weather" {[ "location" := "Boston, MA" ]}];
     stop_reason := "tool_use" |}.

(** A remote assistant that asks for the weather, then for the time, and
    then answers. *)
Definition two_tools_then_answer (k : nat) : exn + response :=
  match k with
  | O => inr asks_the_weather
  | S O => inr Samples.asks_the_time
  | S (S _) => inr Samples.final_answer
  end.

End MoreSamples.

(** * Properties *)

(** ** The backoff generator *)

Module BackoffFacts.
Import Py Summarizer.

Lemma after_locals c n :
  after c (S n) = Suspended (fst (locals c n)) (snd (locals c n)).
Proof.
  induction n as [|n IH].
  - reflexivity.
  - change (after c (S (S n))) with (snd (next c (after c (S n)))).
    rewrite IH. simpl.
    destruct (locals c n) as [a b]. simpl.
    destruct (le_ceiling b c); reflexivity.
Qed.

(** The [n]-th emitted value is the local [a] at the [n]-th [yield]. *)
Lemma wait_locals c n : wait c n = fst (locals c n).
Proof.
  unfold wait. destruct n as [|n].
  - reflexivity.
  - rewrite after_locals. simpl.
    destruct (locals c n) as [a b]. simpl.
    destruct (le_ceiling b c); reflexivity.
Qed.

(** [0 <= a <= b] and [0 < b] at every [yield]. *)
Lemma locals_ordered c n :
  0 <= fst (locals c n) <= snd (locals c n) /\ 0 < snd (locals c n).
Proof.
  induction n as [|n IH]; simpl.
  - lia.
  - destruct (locals c n) as [a b]. simpl in *.
    destruct (le_ceiling b c); simpl; lia.
Qed.

Lemma wait_step c n : wait c n <= wait c (S n).
Proof.
  rewrite !wait_locals. simpl.
  pose proof (locals_ordered c n) as H.
  destruct (locals c n) as [a b]. simpl in *.
  destruct (le_ceiling b c); simpl; lia.
Qed.

(** Once the guard fails the locals never change again. *)
Lemma frozen_locals c n m :
  frozen c n = true -> (n <= m)%nat -> locals c m = locals c n.
Proof.
  intros Hf Hle. induction Hle as [|m Hle IH].
  - reflexivity.
  - simpl. rewrite IH. unfold frozen in Hf.
    destruct (locals c n) as [a b]. simpl in *.
    destruct (le_ceiling b c); [discriminate | reflexivity].
Qed.

(** Every emitted value passes the guard of a ceiling that [0] passes. *)
Lemma wait_le_ceiling c n :
  le_ceiling 0 c = true -> le_ceiling (wait c n) c = true.
Proof.
  intros H0. rewrite wait_locals.
  induction n as [|n IH]; simpl.
  - exact H0.
  - destruct (locals c n) as [a b]. simpl in *.
    destruct (le_ceiling b c) eqn:Hb; simpl; [exact Hb | exact IH].
Qed.

Lemma le_ceiling_not_above z c : le_ceiling z c = true -> above z c = false.
Proof.
  destruct c; simpl; intros H; try discriminate; try reflexivity.
  rewrite H. reflexivity.
Qed.

Lemma not_le_ceiling_above z z' c :
  le_ceiling z' c = true -> le_ceiling z c = false -> above z c = true.
Proof.
  destruct c; simpl; intros H' H; try discriminate; try reflexivity.
  rewrite H. reflexivity.
Qed.

(** Below a ceiling that [0] does not pass, the generator emits [0] forever. *)
Lemma negative_ceiling_emits_zero c n :
  le_ceiling 1 c = false -> wait c n = 0.
Proof.
  intros H1. rewrite wait_locals.
  assert (locals c n = (0, 1)) as ->; [|reflexivity].
  induction n as [|n IH]; simpl; [reflexivity|].
  rewrite IH. simpl. rewrite H1. reflexivity.
Qed.

(** C3. For every ceiling the emitted wait durations are non-negative and
    non-decreasing: an earlier one is never larger than a later one, up to the
    freeze and (constant) after it. *)
Theorem wait_nonneg_nondecreasing (c : ceiling) (i j : nat) :
  (i <= j)%nat -> 0 <= wait c i /\ wait c i <= wait c j.
Proof.
  intros Hle. split.
  - rewrite wait_locals. apply (locals_ordered c i).
  - induction Hle as [|j Hle IH]; [lia|].
    pose proof (wait_step c j). lia.
Qed.

Lemma wait_nonneg_nondecreasing_witness :
  0 <= wait (Finite 60) 3 /\ wait (Finite 60) 3 <= wait (Finite 60) 12.
Proof. apply (wait_nonneg_nondecreasing (Finite 60) 3 12). lia. Defined.

(** C1, as the code has it. For a ceiling that is not negative, once the next
    value of the recurrence would exceed the ceiling, every wait emitted from
    then on is the one emitted at the freeze and does not exceed the ceiling;
    what exceeds it is the local [b], which is never emitted. *)
Theorem frozen_wait_within_ceiling (c : ceiling) (n m : nat) :
  le_ceiling 0 c = true -> frozen c n = true -> (n <= m)%nat ->
  wait c m = wait c n /\ above (wait c m) c = false
  /\ above (snd (locals c m)) c = true.
Proof.
  intros H0 Hf Hle. split; [|split].
  - rewrite !wait_locals. f_equal. apply frozen_locals; assumption.
  - apply le_ceiling_not_above, wait_le_ceiling, H0.
  - rewrite (frozen_locals c n m Hf Hle).
    apply (not_le_ceiling_above _ 0); [exact H0|].
    unfold frozen in Hf. destruct (le_ceiling (snd (locals c n)) c);
      [discriminate | reflexivity].
Qed.

Lemma frozen_wait_within_ceiling_witness :
  wait (Finite 60) 12 = wait (Finite 60) 10
  /\ above (wait (Finite 60) 12) (Finite 60) = false
  /\ above (snd (locals (Finite 60) 12)) (Finite 60) = true.
Proof.
  apply (frozen_wait_within_ceiling (Finite 60) 10 12);
    [reflexivity | reflexivity | lia].
Defined.

(** C1, as stated, fails at the ceiling the script configures: growth is
    frozen at the tenth [yield], with [(a, b) = (55, 89)], and no wait the
    generator ever emits, before or after, exceeds 60. *)
Lemma ceiling_60_never_exceeded :
  frozen (Finite 60) 10 = true
  /\ locals (Finite 60) 10 = (55, 89)
  /\ ~ exists m, (10 <= m)%nat /\ above (wait (Finite 60) m) (Finite 60) = true.
Proof.
  split; [reflexivity|]. split; [reflexivity|].
  intros (m & _ & Habove).
  rewrite (le_ceiling_not_above _ _ (wait_le_ceiling (Finite 60) m eq_refl))
    in Habove.
  discriminate Habove.
Qed.

End BackoffFacts.

(** ** The summarizer's retry wrapper *)

Module RetryFacts.
Import Py Summarizer Samples.

Section Wrapper.
Variable c : ceiling.
Context {Env R : Type}.
Variable func :
  list pyval -> list (string * pyval) -> world Env -> outcome R * world Env.

(** Without keyword arguments the call of line 89 is the call of [func]. *)
Lemma call_func_positional args : call_func func args [] = func args [].
Proof. unfold call_func. simpl. rewrite app_nil_r. reflexivity. Qed.

(** An execution of the work that succeeds ends the wrapper with its result. *)
Lemma wrapper_loop_success fuel g args kwargs w r w1 :
  call_func func args kwargs w = (Ret r, w1) ->
  wrapper_loop c func (S fuel) g args kwargs w = (Ret r, w1).
Proof. intros H. simpl. rewrite H. reflexivity. Qed.

(** A rate-limit failure: sleep for the next generated duration, then
    execute the same work again. *)
Lemma wrapper_loop_rate_limit fuel g args kwargs w w1 :
  call_func func args kwargs w = (Raise RateLimitError, w1) ->
  wrapper_loop c func (S fuel) g args kwargs w =
  sleep_then (fst (next c g)) w1
    (wrapper_loop c func fuel (snd (next c g)) args kwargs).
Proof.
  intros H. simpl. rewrite H. simpl.
  destruct (next c g) as [t g']. reflexivity.
Qed.

(** A server-side failure: the same, thirty seconds longer. *)
Lemma wrapper_loop_server_error fuel g args kwargs w w1 :
  call_func func args kwargs w = (Raise InternalServerError, w1) ->
  wrapper_loop c func (S fuel) g args kwargs w =
  sleep_then (fst (next c g) + 30) w1
    (wrapper_loop c func fuel (snd (next c g)) args kwargs).
Proof.
  intros H. simpl. rewrite H. simpl.
  destruct (next c g) as [t g']. reflexivity.
Qed.

(** C7. A failure of the work that is neither a rate-limit nor a server
    error leaves the wrapper at once, whatever the state of the generator:
    the wrapper ends with that failure in the very world the work left, so
    nothing was slept and nothing run again. *)
Theorem non_transient_failure_propagates
    (fuel : nat) (g : generator) (args : list pyval)
    (kwargs : list (string * pyval)) (w w1 : world Env) (e : exn) :
  call_func func args kwargs w = (Raise e, w1) ->
  transient e = false ->
  wrapper_loop c func (S fuel) g args kwargs w = (Raise e, w1).
Proof.
  intros H Ht. simpl. rewrite H.
  unfold transient in Ht. apply orb_false_elim in Ht as [-> ->].
  reflexivity.
Qed.
End Wrapper.

Lemma non_transient_failure_propagates_witness :
  wrapper_loop (Finite 60) failing_work 5 (Suspended 2 3) [PInt 1] []
    {| env := tt; slept := [0; 1] |}
  = (Raise (KeyError "claude_key"), {| env := tt; slept := [0; 1] |}).
Proof.
  apply (non_transient_failure_propagates (Finite 60) failing_work 4
           (Suspended 2 3) [PInt 1] [] _ _ (KeyError "claude_key"));
    reflexivity.
Defined.

(** C10 at [ask_claude(new_message, messages=[])]. The undecorated function
    sends [[new_message]] and returns the reply with it; the decorated one
    calls [func(new_message, "messages")], which fails on
    ["messages" + [new_message]] before any request is made. *)
Theorem wrapper_passes_keyword_names_as_positionals (fuel : nat) :
  let new_message := summary_request "captions" in
  let kwargs := [("messages", PList [])] in
  ask_claude_func obliging [new_message] kwargs fresh_state
  = (Ret ({| content := [TextBlock "summary"]; stop_reason := "end_turn" |},
          PList [new_message]),
     log_request (PList [new_message]) fresh_state)
  /\ ask_claude obliging (S fuel) [new_message] kwargs fresh_state
     = (Raise TypeError, fresh_state).
Proof. split; reflexivity. Qed.

(** With positional arguments only, and no transient failure, the decorated
    function is the undecorated one. *)
Lemma wrapper_positional_only c {Env R}
    (func : list pyval -> list (string * pyval) -> world Env -> outcome R * world Env)
    fuel args w :
  (forall e w1, func args [] w = (Raise e, w1) -> transient e = false) ->
  wrapper c func (S fuel) args [] w = func args [] w.
Proof.
  intros Hnt. unfold wrapper. simpl. rewrite call_func_positional.
  destruct (func args [] w) as [[r|e|] w1] eqn:Hf; simpl in *.
  - reflexivity.
  - specialize (Hnt e w1 eq_refl). unfold transient in Hnt.
    apply orb_false_elim in Hnt as [-> ->]. reflexivity.
  - reflexivity.
Qed.

End RetryFacts.

(** ** The summarizer's [main] *)

Module SummarizerFacts.
Import Py Summarizer Samples.

Section Script.
Variable remote : nat -> exn + response.
Variable extract_info :
  string -> exn + option (gmap string (option (gmap string string))).
Variable http_get : string -> exn + string.

(** Without English captions [download_captions] returns [None] and touches
    nothing. *)
Lemma download_captions_none video_url w :
  no_english_captions extract_info video_url ->
  download_captions extract_info http_get video_url w = (Ret None, w).
Proof.
  unfold no_english_captions, download_captions.
  destruct (extract_info video_url) as [e|[subs|]]; [intros []| |reflexivity].
  intros [->|[Hen|Hen]].
  - rewrite decide_True by reflexivity. reflexivity.
  - destruct (decide (subs = ∅)); [reflexivity|]. rewrite Hen. reflexivity.
  - destruct (decide (subs = ∅)); [reflexivity|]. rewrite Hen.
    rewrite decide_True by reflexivity. reflexivity.
Qed.

(** C9. When the caption source reports no English captions, [main] returns
    normally in the world it started in: the list of requests made to the
    remote assistant is the one before the call, so [ask_claude] never
    ran. *)
Theorem no_captions_no_request
    (fuel : nat) (video_url : string) (w : state) :
  no_english_captions extract_info video_url ->
  main remote extract_info http_get fuel video_url w = (Ret tt, w)
  /\ requests (env (snd (main remote extract_info http_get fuel video_url w)))
     = requests (env w).
Proof.
  intros H. unfold main.
  rewrite (download_captions_none video_url w H). split; reflexivity.
Qed.
End Script.

Lemma no_captions_no_request_witness :
  main Samples.obliging no_subtitles unreachable_host 3
    "https://www.youtube.com/watch?v=x" Samples.fresh_state
  = (Ret tt, Samples.fresh_state)
  /\ requests (env (snd (main Samples.obliging no_subtitles unreachable_host 3
                           "https://www.youtube.com/watch?v=x"
                           Samples.fresh_state)))
     = requests (env Samples.fresh_state).
Proof.
  apply (no_captions_no_request Samples.obliging no_subtitles
           unreachable_host 3 "https://www.youtube.com/watch?v=x"
           Samples.fresh_state).
  exact I.
Defined.

End SummarizerFacts.

(** ** The capabilities of the tool demo *)

Module CapabilityFacts.
Import Py ToolUse.

Lemma prefix_append (s t : string) : String.prefix s (s +:+ t) = true.
Proof.
  induction s as [|a s IH]; simpl.
  - destruct t; reflexivity.
  - destruct (Ascii.ascii_dec a a); [exact IH | contradiction].
Qed.

Lemma prefix_split (s t : string) :
  String.prefix s t = true -> exists post, t = s +:+ post.
Proof.
  revert t. induction s as [|a s IH]; intros t H.
  - exists t. reflexivity.
  - destruct t as [|b t]; simpl in H; [discriminate|].
    destruct (Ascii.ascii_dec a b) as [->|]; [|discriminate].
    destruct (IH t H) as [post ->]. exists post. reflexivity.
Qed.

(** [contains] is the substring test of [in]. *)
Lemma contains_spec (needle hay : string) :
  contains needle hay = true <-> exists pre post, hay = pre +:+ needle +:+ post.
Proof.
  split.
  - induction hay as [|a hay IH]; cbn [contains]; intros H;
      apply orb_true_iff in H as [H|H].
    + apply prefix_split in H as [post ->].
      exists EmptyString, post. reflexivity.
    + discriminate.
    + apply prefix_split in H as [post ->].
      exists EmptyString, post. reflexivity.
    + destruct (IH H) as (pre & post & ->).
      exists (String a pre), post. reflexivity.
  - intros (pre & post & ->).
    induction pre as [|a pre IH].
    + change (EmptyString +:+ needle +:+ post) with (needle +:+ post).
      destruct (needle +:+ post) eqn:E; cbn [contains]; rewrite <- E;
        rewrite prefix_append; reflexivity.
    + change (String a pre +:+ needle +:+ post)
        with (String a (pre +:+ needle +:+ post)).
      cbn [contains]. rewrite IH. apply orb_true_r.
Qed.

(** C8. Whatever stands before and after ["Northsborough"] in the location,
    the weather capability answers with the clarification, verbatim. *)
Theorem get_weather_northsborough (pre post : string) :
  get_weather (pre +:+ "Northsborough" +:+ post)
  = "Did you mean Northborough, MA?".
Proof.
  unfold get_weather.
  assert (contains "Northsborough" (pre +:+ "Northsborough" +:+ post) = true)
    as ->; [|reflexivity].
  apply contains_spec. exists pre, post. reflexivity.
Qed.

End CapabilityFacts.

(** ** The retry wrapper and the dispatch loop of the tool demo *)

Module DispatchFacts.
Import Py ToolUse Samples.
Local Open Scope py_scope.

Lemma quiet_ret {A} (a : A) : quiet (ret a).
Proof. intros w. split; reflexivity. Qed.

Lemma quiet_raise {A} (e : exn) : quiet (raise (A := A) e).
Proof. intros w. split; reflexivity. Qed.

Lemma quiet_diverge {A} : quiet (diverge (A := A)).
Proof. intros w. split; reflexivity. Qed.

Lemma quiet_print (e : event) : quiet (print e).
Proof. intros w. split; reflexivity. Qed.

Lemma quiet_sleep (secs : Z) : quiet (sleep secs).
Proof.
  intros w. unfold sleep.
  destruct ((secs <? - max_sleep) || (max_sleep <? secs));
    [split; reflexivity|].
  destruct (secs <? 0); split; reflexivity.
Qed.

Lemma quiet_bind {A B} (c : M A) (k : A -> M B) :
  quiet c -> (forall a, quiet (k a)) -> quiet (bind c k).
Proof.
  intros Hc Hk w. unfold bind. specialize (Hc w).
  destruct (c w) as [[a|e|] w1]; simpl in *; [|exact Hc|exact Hc].
  destruct Hc as [Hh Hs]. destruct (Hk a w1) as [Hh' Hs'].
  split; congruence.
Qed.

Lemma quiet_try_except {A} (c : M A) (h : exn -> option (M A)) :
  quiet c -> (forall e handler, h e = Some handler -> quiet handler) ->
  quiet (try_except c h).
Proof.
  intros Hc Hh w. unfold try_except. specialize (Hc w).
  destruct (c w) as [[a|e|] w1]; simpl in *; [exact Hc| |exact Hc].
  destruct (h e) as [handler|] eqn:He; [|exact Hc].
  destruct Hc as [H1 H2]. destruct (Hh e handler He w1) as [H3 H4].
  split; congruence.
Qed.

Lemma quiet_subscript input key : quiet (subscript input key).
Proof.
  unfold subscript. destruct (input !! key); [apply quiet_ret | apply quiet_raise].
Qed.

Lemma quiet_handle_tool_use name input : quiet (handle_tool_use name input).
Proof.
  unfold handle_tool_use. apply quiet_bind; [apply quiet_print|]. intros _.
  destruct (String.eqb name "get_weather").
  { apply quiet_bind; [apply quiet_subscript | intros; apply quiet_ret]. }
  destruct (String.eqb name "get_facts").
  { apply quiet_bind; [apply quiet_subscript | intros; apply quiet_ret]. }
  apply quiet_ret.
Qed.

Lemma quiet_first_text blocks : quiet (first_text blocks).
Proof.
  induction blocks as [|[text|id name input] rest IH]; simpl.
  - apply quiet_raise.
  - apply quiet_ret.
  - exact IH.
Qed.

Lemma quiet_first_tool_use blocks : quiet (first_tool_use blocks).
Proof.
  induction blocks as [|[text|id name input] rest IH]; simpl.
  - apply quiet_raise.
  - exact IH.
  - apply quiet_ret.
Qed.

Lemma quiet_dispatch resp : quiet (dispatch resp).
Proof.
  unfold dispatch. apply quiet_bind.
  - destruct (decide (1 < length (content resp))%nat); [|apply quiet_ret].
    apply quiet_bind; [apply quiet_first_text | intros; apply quiet_print].
  - intros _. apply quiet_bind; [apply quiet_first_tool_use|].
    intros [[id name] input].
    apply quiet_bind; [apply quiet_handle_tool_use | intros; apply quiet_ret].
Qed.

Section Script.
Variable remote : nat -> exn + response.
Variable raised : exn.

(** The wrapper of the tool demo makes no request and creates no list. *)
Lemma quiet_ask_claude_with_retries fuel new_message messages :
  quiet (ask_claude_with_retries remote raised fuel new_message messages).
Proof.
  induction fuel as [|fuel IH]; simpl; [apply quiet_diverge|].
  apply quiet_try_except.
  - intros w. split; reflexivity.
  - intros e handler He. destruct (is_rate_limit e); [|discriminate].
    injection He as <-.
    apply quiet_bind; [apply quiet_print|]. intros _.
    apply quiet_bind; [apply quiet_sleep|]. intros _. exact IH.
Qed.

Lemma ask_claude_with_retries_outcome fuel new_message messages w :
  fst (ask_claude_with_retries remote raised fuel new_message messages w)
    = Diverge
  \/ fst (ask_claude_with_retries remote raised fuel new_message messages w)
    = Raise raised.
Proof.
  revert w. induction fuel as [|fuel IH]; intros w; simpl; [left; reflexivity|].
  unfold try_except, bind at 1, raise at 1. simpl.
  destruct (is_rate_limit raised); [|right; reflexivity].
  unfold bind, print, sleep. simpl. apply IH.
Qed.

(** C2 at the wrapper of the tool demo. Whatever the remote assistant would
    answer and however long the wrapper is left running, it does not return:
    it is still sleeping when the budget runs out, or it has passed on what
    line 90 raised; and it has made no request and built no list of turns,
    so the work was never executed. *)
Theorem ask_claude_with_retries_never_runs_the_work
    (fuel : nat) (new_message : message) (messages : loc) (w : world) :
  let r := ask_claude_with_retries remote raised fuel new_message messages w in
  (fst r = Diverge \/ fst r = Raise raised)
  /\ sent (snd r) = sent w /\ heap (snd r) = heap w.
Proof.
  simpl. split; [apply ask_claude_with_retries_outcome|].
  destruct (quiet_ask_claude_with_retries fuel new_message messages w).
  split; assumption.
Qed.

(** With a rate-limit error at line 90, each round of the wrapper is one
    more sleep of ten seconds. *)
Lemma ask_claude_with_retries_sleeps fuel new_message messages w :
  raised = RateLimitError ->
  slept (snd (ask_claude_with_retries remote raised fuel new_message messages w))
  = slept w ++ replicate fuel 10.
Proof.
  intros ->. revert w. induction fuel as [|fuel IH]; intros w; simpl.
  - rewrite app_nil_r. reflexivity.
  - unfold try_except, bind, raise, print, sleep. simpl.
    rewrite IH. simpl. rewrite <- app_assoc. reflexivity.
Qed.

(** The loop of [main] under a callee that does not return. *)
Lemma main_loop_stuck (ask : message -> loc -> M (response * loc))
    fuel user_content messages w :
  (forall m l w0, quiet (ask m l) /\
     (fst (ask m l w0) = Diverge \/ fst (ask m l w0) = Raise raised)) ->
  let r := main_loop ask fuel user_content messages w in
  (fst r = Diverge \/ fst r = Raise raised)
  /\ sent (snd r) = sent w /\ heap (snd r) = heap w.
Proof.
  intros Hask. destruct fuel as [|fuel]; simpl.
  - split; [left; reflexivity | split; reflexivity].
  - unfold bind.
    destruct (Hask {| role := "user"; body := user_content |} messages w)
      as [Hq Ho].
    specialize (Hq w).
    destruct (ask _ messages w) as [[a|e|] w1]; simpl in *.
    + destruct Ho; discriminate.
    + destruct Hq. split; [|split; assumption].
      destruct Ho as [Ho|Ho]; [discriminate | right; congruence].
    + destruct Hq. split; [left; reflexivity | split; assumption].
Qed.

(** C6 on [main] as the script has it. Whatever the replies of the remote
    assistant would be, [main] does not return: no request is ever sent, and
    the run is still in the wrapper's sleep when the budget runs out, or has
    ended with what line 90 raised. *)
Theorem main_never_returns (fuel : nat) (w : world) :
  let r := main remote raised fuel w in
  (fst r = Diverge \/ fst r = Raise raised) /\ sent (snd r) = sent w.
Proof.
  assert (forall m l w0,
             quiet (ask_claude_with_retries remote raised fuel m l) /\
             (fst (ask_claude_with_retries remote raised fuel m l w0) = Diverge
              \/ fst (ask_claude_with_retries remote raised fuel m l w0)
                 = Raise raised)) as Hask.
  { intros m l w0. split.
    - apply quiet_ask_claude_with_retries.
    - apply ask_claude_with_retries_outcome. }
  cbv zeta. unfold main, main_with, bind, alloc.
  match goal with
  | |- context [main_loop ?ask ?f ?u ?m ?w0] =>
      pose proof (main_loop_stuck ask f u m w0 Hask) as H; cbv zeta in H;
      destruct (main_loop ask f u m w0) as [[a|e|] w1]
  end; simpl in *; destruct H as (Ho & Hs & _).
  - destruct Ho; discriminate.
  - split; [|exact Hs]. destruct Ho as [Ho|Ho]; [discriminate | right; congruence].
  - split; [left; reflexivity | exact Hs].
Qed.

(** A name that is neither of the two registered ones gets the fallback,
    whatever the input. *)
Lemma handle_tool_use_unknown name input w :
  name <> "get_weather" -> name <> "get_facts" ->
  handle_tool_use name input w
  = (Ret "n/a", {| heap := heap w; sent := sent w; slept := slept w;
                   out := out w ++ [PrintedToolUse name input] |}).
Proof.
  intros Hw Hf. unfold handle_tool_use, bind, print.
  apply String.eqb_neq in Hw, Hf. rewrite Hw, Hf. reflexivity.
Qed.

Lemma first_tool_use_found pre id name input rest w :
  Forall (fun b => block_type b = "text") pre ->
  first_tool_use (pre ++ ToolUseBlock id name input :: rest) w
  = (Ret (id, name, input), w).
Proof.
  induction 1 as [|b pre Hb _ IH]; simpl; [reflexivity|].
  destruct b as [text|? ? ?]; [exact IH | discriminate Hb].
Qed.

Lemma first_text_found blocks w :
  (exists text, TextBlock text ∈ blocks) ->
  exists text, first_text blocks w = (Ret text, w).
Proof.
  intros [text Hin].
  induction blocks as [|[text'|id name input] rest IH]; simpl.
  - apply elem_of_nil in Hin as [].
  - exists text'. reflexivity.
  - apply IH. apply elem_of_cons in Hin as [Heq|Hin]; [discriminate | exact Hin].
Qed.

(** The [tool_use] branch on a reply whose first request names an
    unregistered capability. *)
Lemma dispatch_unknown resp pre id name input rest w :
  content resp = pre ++ ToolUseBlock id name input :: rest ->
  Forall (fun b => block_type b = "text") pre ->
  ((length (content resp) <= 1)%nat \/ exists text, TextBlock text ∈ content resp) ->
  name <> "get_weather" -> name <> "get_facts" ->
  exists w',
    dispatch resp w
    = (Ret (ToolResults [{| tool_use_id := id; result := "n/a" |}]), w')
    /\ heap w' = heap w /\ sent w' = sent w /\ slept w' = slept w.
Proof.
  intros Hc Hpre Hdiag Hw Hf. unfold dispatch.
  assert (exists w1,
             (if decide (1 < length (content resp))%nat
              then bind (first_text (content resp))
                     (fun thoughts => print (PrintedThinking thoughts))
              else ret tt) w = (Ret tt, w1)
             /\ heap w1 = heap w /\ sent w1 = sent w /\ slept w1 = slept w)
    as (w1 & Hdiag1 & Hh & Hs & Hsl).
  { destruct (decide (1 < length (content resp))%nat) as [Hlen|Hlen].
    - destruct Hdiag as [Hdiag|Hdiag]; [lia|].
      destruct (first_text_found _ w Hdiag) as [text Ht].
      unfold bind. rewrite Ht. unfold print.
      eexists. split; [reflexivity|]. simpl. auto.
    - exists w. auto. }
  unfold bind at 1. rewrite Hdiag1.
  unfold bind at 1. rewrite Hc, (first_tool_use_found pre id name input rest w1 Hpre).
  unfold bind. rewrite (handle_tool_use_unknown name input w1 Hw Hf).
  unfold ret. eexists. split; [reflexivity|]. simpl. auto.
Qed.

(** The path on which the fallback works. When the callee hands the loop a
    reply that stops for a tool use, has a single segment or some text
    segment, and whose first request names neither [get_weather] nor
    [get_facts], the iteration neither raises nor ends the loop: it is the
    next iteration, entered with a tool result that carries the request's
    identifier and the fallback ["n/a"], after the reply has been appended to
    the turns. *)
Theorem unknown_capability_falls_back
    (ask : message -> loc -> M (response * loc))
    (fuel : nat) (user_content : payload) (messages messages' : loc)
    (w w1 : world) (resp : response)
    (pre rest : list block) (id name : string) (input : gmap string string) :
  ask {| role := "user"; body := user_content |} messages w
  = (Ret (resp, messages'), w1) ->
  stop_reason resp = "tool_use" ->
  content resp = pre ++ ToolUseBlock id name input :: rest ->
  Forall (fun b => block_type b = "text") pre ->
  ((length (content resp) <= 1)%nat \/ exists text, TextBlock text ∈ content resp) ->
  name <> "get_weather" -> name <> "get_facts" ->
  exists w2,
    main_loop ask (S fuel) user_content messages w
    = main_loop ask fuel
        (ToolResults [{| tool_use_id := id; result := "n/a" |}]) messages' w2
    /\ sent w2 = sent w1 /\ slept w2 = slept w1
    /\ heap w2 = <[messages' := default [] (heap w1 !! messages')
                     ++ [{| role := "assistant"; body := Blocks (content resp) |}]]>
                   (heap w1).
Proof.
  intros Hask Hstop Hc Hpre Hdiag Hw Hf.
  cbn [main_loop]. unfold bind at 1. rewrite Hask.
  unfold bind at 1, append at 1. rewrite Hstop, String.eqb_refl.
  match goal with
  | |- context [bind (dispatch resp) ?k ?w0] =>
      destruct (dispatch_unknown resp pre id name input rest w0
                  Hc Hpre Hdiag Hw Hf) as (w2 & Hd & Hh & Hs & Hsl)
  end.
  exists w2. unfold bind. rewrite Hd.
  split; [reflexivity|]. simpl in *. auto.
Qed.

Lemma grows_refl h : grows h h.
Proof. intros l items H. exists []. rewrite app_nil_r. exact H. Qed.

Lemma grows_trans h1 h2 h3 : grows h1 h2 -> grows h2 h3 -> grows h1 h3.
Proof.
  intros H12 H23 l items H.
  destruct (H12 l items H) as [more1 H1].
  destruct (H23 l _ H1) as [more2 H2].
  exists (more1 ++ more2). rewrite app_assoc. exact H2.
Qed.

(** A new list object leaves the others as they are. *)
Lemma grows_alloc h items : grows h (h ++ [items]).
Proof.
  intros l xs H. exists []. rewrite app_nil_r.
  rewrite lookup_app_l; [exact H|]. eapply lookup_lt_Some, H.
Qed.

(** [append] extends one list object at its end and leaves the others. *)
Lemma grows_append h (l : loc) item :
  grows h (<[l := default [] (h !! l) ++ [item]]> h).
Proof.
  intros l' xs H. destruct (decide (l = l')) as [<-|Hne].
  - exists [item]. rewrite H. simpl.
    apply list_lookup_insert_eq. eapply lookup_lt_Some, H.
  - exists []. rewrite app_nil_r, list_lookup_insert_ne; assumption.
Qed.

Lemma chain_weaken start start' log :
  start `prefix_of` start' -> chain start' log -> chain start log.
Proof.
  destruct log as [|s rest]; simpl; [trivial|].
  intros Hp [Hs Hrest]. split; [|exact Hrest].
  etransitivity; eassumption.
Qed.

(** Along a chain every turn of the start keeps its position. *)
Lemma chain_keeps_positions start log s (i : nat) turn :
  chain start log -> s ∈ log -> start !! i = Some turn -> s !! i = Some turn.
Proof.
  revert start. induction log as [|s' rest IH]; intros start Hch Hin Hi.
  - apply elem_of_nil in Hin as [].
  - destruct Hch as [Hp Hrest].
    pose proof (prefix_lookup_Some _ _ _ _ Hi Hp) as Hi'.
    apply elem_of_cons in Hin as [->|Hin]; [exact Hi'|].
    eapply IH; eassumption.
Qed.

(** One call of [ask_claude]: a new list object with the new turn behind
    the old ones, which is what is sent; the old list is not touched. *)
Lemma ask_claude_eq new_message messages w :
  ask_claude remote new_message messages w
  = (match remote (length (sent w)) with
     | inl e => Raise e
     | inr resp => Ret (resp, length (heap w))
     end,
     {| heap := heap w ++ [default [] (heap w !! messages) ++ [new_message]];
        sent := sent w ++ [default [] (heap w !! messages) ++ [new_message]];
        slept := slept w; out := out w |}).
Proof.
  unfold ask_claude, bind, read, alloc, create, ret. simpl.
  rewrite list_lookup_middle by reflexivity. simpl.
  destruct (remote (length (sent w))); reflexivity.
Qed.

(** The loop over [ask_claude] itself: list objects only grow at their end,
    and the sequences sent form a chain that starts from the turns the
    iteration began with. *)
Lemma main_loop_ask_claude_append_only fuel user_content messages w :
  grows (heap w)
    (heap (snd (main_loop (ask_claude remote) fuel user_content messages w)))
  /\ exists new,
      sent (snd (main_loop (ask_claude remote) fuel user_content messages w))
      = sent w ++ new
      /\ chain (default [] (heap w !! messages)) new.
Proof.
  revert user_content messages w.
  induction fuel as [|fuel IH]; intros user_content messages w.
  { simpl. split; [apply grows_refl|]. exists []. rewrite app_nil_r. split; [reflexivity | exact I]. }
  destruct (main_loop (ask_claude remote) (S fuel) user_content messages w)
    as [o w'] eqn:Hrun.
  cbn [main_loop] in Hrun. unfold bind at 1 in Hrun.
  rewrite ask_claude_eq in Hrun. cbn [snd].
  set (old := default [] (heap w !! messages)) in *.
  set (new_message := {| role := "user"; body := user_content |}) in *.
  set (w1 := {| heap := heap w ++ [old ++ [new_message]];
                sent := sent w ++ [old ++ [new_message]];
                slept := slept w; out := out w |}) in *.
  assert (chain old [old ++ [new_message]]) as Hone.
  { split; [apply prefix_app_r; reflexivity | exact I]. }
  destruct (remote (length (sent w))) as [e|resp].
  { injection Hrun as <- <-. split; [apply grows_alloc|].
    exists [old ++ [new_message]]. split; [reflexivity | exact Hone]. }
  unfold bind at 1, append at 1 in Hrun.
  set (turn := {| role := "assistant"; body := Blocks (content resp) |}) in *.
  match type of Hrun with
  | _ ?world_after_append = _ => set (w2 := world_after_append) in *
  end.
  assert (grows (heap w) (heap w2)) as Hg2.
  { eapply grows_trans; [apply grows_alloc | apply grows_append]. }
  assert (heap w2 !! length (heap w) = Some ((old ++ [new_message]) ++ [turn]))
    as Hlook.
  { subst w2 w1. simpl.
    rewrite list_lookup_insert_eq
      by (rewrite length_app; simpl; lia).
    rewrite list_lookup_middle by reflexivity. reflexivity. }
  destruct (String.eqb (stop_reason resp) "tool_use").
  2:{ injection Hrun as <- <-. split; [exact Hg2|].
      exists [old ++ [new_message]]. split; [reflexivity | exact Hone]. }
  unfold bind in Hrun.
  destruct (quiet_dispatch resp w2) as [Hqh Hqs].
  destruct (dispatch resp w2) as [[user_content'|e|] w3];
    cbn [snd] in Hqh, Hqs; cbv beta iota in Hrun.
  - destruct (IH user_content' (length (heap w)) w3) as (Hg & new & Hs & Hch).
    rewrite Hrun in Hg, Hs. cbn [snd] in Hg, Hs.
    split.
    + eapply grows_trans; [exact Hg2|]. rewrite <- Hqh. exact Hg.
    + exists ((old ++ [new_message]) :: new). split.
      * rewrite Hs, Hqs. simpl. rewrite <- app_assoc. reflexivity.
      * split; [apply prefix_app_r; reflexivity|].
        rewrite Hqh, Hlook in Hch. simpl in Hch.
        eapply chain_weaken; [|exact Hch]. apply prefix_app_r. reflexivity.
  - injection Hrun as <- <-. split; [rewrite Hqh; exact Hg2|].
    exists [old ++ [new_message]]. split; [rewrite Hqs; reflexivity | exact Hone].
  - injection Hrun as <- <-. split; [rewrite Hqh; exact Hg2|].
    exists [old ++ [new_message]]. split; [rewrite Hqs; reflexivity | exact Hone].
Qed.

(** The summarizer's [ask_claude], called with a list of earlier turns:
    what it sends is that list with the new turn behind it. *)
Lemma summarizer_ask_claude_appends srv new_message items w :
  Summarizer.requests
    (Summarizer.env
       (snd (Summarizer.ask_claude_func srv [new_message; PList items] [] w)))
  = Summarizer.requests (Summarizer.env w) ++ [PList (items ++ [new_message])].
Proof.
  unfold Summarizer.ask_claude_func. simpl.
  destruct (srv _); reflexivity.
Qed.

(** C5. Through any number of iterations of the dispatch loop, be its callee
    [ask_claude] itself or the wrapper the script names: every list object
    of turns keeps its items where they are and only gets more behind them;
    the sequences sent on the round trips, in order, each extend the one
    before, the first one extending the turns the loop started with; so
    every turn present at the start of the iteration is at the same
    position in every sequence sent from then on.  The summarizer's
    [ask_claude] likewise sends its list of turns with the new one behind
    it. *)
Theorem turns_append_only
    (ask : message -> loc -> M (response * loc)) (retries fuel : nat)
    (user_content : payload) (messages : loc) (w : world) :
  ask = ask_claude remote
  \/ ask = ask_claude_with_retries remote raised retries ->
  let start := default [] (heap w !! messages) in
  let w' := snd (main_loop ask fuel user_content messages w) in
  grows (heap w) (heap w')
  /\ (exists new,
        sent w' = sent w ++ new
        /\ chain start new
        /\ forall s (i : nat) turn,
             s ∈ new -> start !! i = Some turn -> s !! i = Some turn)
  /\ (forall srv new_message items sw,
        Summarizer.requests
          (Summarizer.env
             (snd (Summarizer.ask_claude_func srv
                     [new_message; PList items] [] sw)))
        = Summarizer.requests (Summarizer.env sw)
          ++ [PList (items ++ [new_message])]).
Proof.
  intros Hask. cbv zeta. split; [|split].
  - destruct Hask as [->| ->].
    + apply main_loop_ask_claude_append_only.
    + destruct (main_loop_stuck (ask_claude_with_retries remote raised retries)
                  fuel user_content messages w) as (_ & _ & Hh).
      { intros m l w0. split.
        - apply quiet_ask_claude_with_retries.
        - apply ask_claude_with_retries_outcome. }
      rewrite Hh. apply grows_refl.
  - destruct Hask as [->| ->].
    + destruct (main_loop_ask_claude_append_only fuel user_content messages w)
        as (_ & new & Hs & Hch).
      exists new. split; [exact Hs|]. split; [exact Hch|].
      intros s i turn Hin Hi. eapply chain_keeps_positions; eassumption.
    + destruct (main_loop_stuck (ask_claude_with_retries remote raised retries)
                  fuel user_content messages w) as (_ & Hs & _).
      { intros m l w0. split.
        - apply quiet_ask_claude_with_retries.
        - apply ask_claude_with_retries_outcome. }
      exists []. rewrite app_nil_r. split; [exact Hs|]. split; [exact I|].
      intros s i turn Hin. apply elem_of_nil in Hin as [].
  - intros. apply summarizer_ask_claude_appends.
Qed.

(** The loop over [ask_claude] itself ends with the first reply that does
    not stop for a tool use, when the replies before it can be dispatched:
    what keeps [main] from returning is the wrapper, not the loop. *)
Lemma main_loop_ask_claude_terminates n :
  forall fuel user_content messages w final,
    (forall k, (k < n)%nat ->
       exists resp, remote (length (sent w) + k) = inr resp
                    /\ stop_reason resp = "tool_use" /\ dispatches resp) ->
    remote (length (sent w) + n) = inr final ->
    stop_reason final <> "tool_use" ->
    (n < fuel)%nat ->
    exists w', main_loop (ask_claude remote) fuel user_content messages w
               = (Ret final, w').
Proof.
  induction n as [|n IH]; intros fuel user_content messages w final Hpre Hfin Hstop Hfuel;
    (destruct fuel as [|fuel]; [lia|]);
    cbn [main_loop]; unfold bind at 1; rewrite ask_claude_eq.
  - rewrite Nat.add_0_r in Hfin. rewrite Hfin.
    unfold bind at 1, append at 1.
    apply String.eqb_neq in Hstop. rewrite Hstop.
    eexists. reflexivity.
  - destruct (Hpre O ltac:(lia)) as (resp & Hr & Ht & Hd).
    rewrite Nat.add_0_r in Hr. rewrite Hr.
    unfold bind at 1, append at 1. rewrite Ht, String.eqb_refl.
    unfold bind.
    match goal with
    | |- context [dispatch resp ?w0] =>
        destruct (Hd w0) as (uc & w3 & Hrun);
        destruct (quiet_dispatch resp w0) as [_ Hs];
        rewrite Hrun in Hs |- *
    end.
    cbn [snd sent] in Hs.
    apply IH; [| |exact Hstop|lia].
    + intros k Hk. rewrite Hs, length_app. simpl.
      replace (length (sent w) + 1 + k)%nat with (length (sent w) + S k)%nat by lia.
      apply Hpre. lia.
    + rewrite Hs, length_app. simpl.
      replace (length (sent w) + 1 + n)%nat with (length (sent w) + S n)%nat by lia.
      exact Hfin.
Qed.
End Script.

Lemma unknown_capability_falls_back_witness :
  exists w2,
    main_loop (ask_claude time_then_answer) 3 (Text opening) 0 started
    = main_loop (ask_claude time_then_answer) 2
        (ToolResults [{| tool_use_id := "toolu_1"; result := "n/a" |}]) 1 w2
    /\ sent w2 = [[{| role := "user"; body := Text opening |}]]
    /\ slept w2 = []
    /\ heap w2 = [[]; [{| role := "user"; body := Text opening |};
                       {| role := "assistant";
                          body := Blocks (content asks_the_time) |}]].
Proof.
  apply (unknown_capability_falls_back (ask_claude time_then_answer) 2
           (Text opening) 0 1 started
           {| heap := [[]; [{| role := "user"; body := Text opening |}]];
              sent := [[{| role := "user"; body := Text opening |}]];
              slept := []; out := [] |}
           asks_the_time [] [] "toolu_1" "get_time" ∅).
  - reflexivity.
  - reflexivity.
  - reflexivity.
  - constructor.
  - left. simpl. lia.
  - discriminate.
  - discriminate.
Defined.

(** A reply that carries two requests and no text, from the world of a
    fresh [main]: the loop looks for a text segment first and has
    [StopIteration] escape before the name is ever looked up. *)
Lemma unknown_capability_without_text_raises :
  dispatch asks_twice started = (Raise StopIteration, started)
  /\ fst (main_loop (ask_claude (fun _ => inr asks_twice)) 3 (Text opening) 0
            started)
     = Raise StopIteration.
Proof. split; reflexivity. Qed.

(** C4 at a reply with two requests for capabilities the demo does not have
    and no text. In no world does the loop substitute the fallback and go on.
    The body of the loop, given that reply, raises [StopIteration] from the
    search for a text segment (line 172), before [handle_tool_use] is
    reached, and so does the loop run over [ask_claude] itself. The loop as
    the script has it, over [ask_claude_with_retries], does not even get the
    reply: it is still in the wrapper or has ended with what line 90 raised,
    and has sent nothing and appended no turn, so no tool result either. *)
Theorem unknown_capability_reply_is_not_answered
    (raised : exn) (retries fuel : nat) (user_content : payload)
    (messages : loc) (w : world) :
  dispatch asks_twice w = (Raise StopIteration, w)
  /\ fst (main_loop (ask_claude (fun _ => inr asks_twice)) (S fuel)
            user_content messages w)
     = Raise StopIteration
  /\ (let r := main_loop
                 (ask_claude_with_retries (fun _ => inr asks_twice) raised retries)
                 fuel user_content messages w in
      (fst r = Diverge \/ fst r = Raise raised)
      /\ sent (snd r) = sent w /\ heap (snd r) = heap w).
Proof.
  split; [reflexivity|]. split.
  - cbn [main_loop]. unfold bind at 1. rewrite ask_claude_eq.
    unfold bind at 1, append at 1. reflexivity.
  - apply main_loop_stuck. intros m l w0. split.
    + apply quiet_ask_claude_with_retries.
    + apply ask_claude_with_retries_outcome.
Qed.

Lemma turns_append_only_witness :
  let w' := snd (main_loop (ask_claude time_then_answer) 3 (Text opening) 0
                   started) in
  grows (heap started) (heap w')
  /\ (exists new,
        sent w' = sent started ++ new
        /\ chain (default [] (heap started !! 0%nat)) new
        /\ forall s (i : nat) turn,
             s ∈ new -> default [] (heap started !! 0%nat) !! i = Some turn ->
             s !! i = Some turn)
  /\ (forall srv new_message items sw,
        Summarizer.requests
          (Summarizer.env
             (snd (Summarizer.ask_claude_func srv
                     [new_message; PList items] [] sw)))
        = Summarizer.requests (Summarizer.env sw)
          ++ [PList (items ++ [new_message])]).
Proof.
  apply (turns_append_only time_then_answer RateLimitError
           (ask_claude time_then_answer) 0 3 (Text opening) 0 started).
  left. reflexivity.
Defined.

End DispatchFacts.

(** * Further properties *)

(** ** The values of the backoff generator *)

Module BackoffExtra.
Import Py Summarizer Reference BackoffFacts.

Lemma fib_step n : fib (S (S n)) = fib (S n) + fib n.
Proof. reflexivity. Qed.

Lemma fib_grows n :
  Z.of_nat n <= fib (S n) /\ 1 <= fib (S n) /\ 0 <= fib n
  /\ ((1 <= n)%nat -> 1 <= fib n).
Proof.
  induction n as [|n (IH1 & IH2 & IH3 & IH4)].
  - cbn. lia.
  - rewrite fib_step. destruct n as [|n].
    + cbn. lia.
    + specialize (IH4 ltac:(lia)). lia.
Qed.

(** While the guard has held at every earlier [yield], the locals are two
    consecutive Fibonacci numbers. *)
Lemma locals_fib c n :
  (forall k, (k < n)%nat -> frozen c k = false) ->
  locals c n = (fib n, fib (S n)).
Proof.
  induction n as [|n IH]; intros H; [reflexivity|].
  assert (locals c n = (fib n, fib (S n))) as Hn
    by (apply IH; intros k Hk; apply H; lia).
  pose proof (H n ltac:(lia)) as Hf. unfold frozen in Hf.
  rewrite Hn in Hf. cbn [snd] in Hf. apply negb_false_iff in Hf.
  cbn [locals]. rewrite Hn. unfold advance. rewrite Hf.
  rewrite (fib_step n). f_equal. lia.
Qed.

(** Up to any bound, either the guard has held throughout or there is a
    first [yield] at which it failed. *)
Lemma first_frozen c N :
  (forall k, (k < N)%nat -> frozen c k = false)
  \/ exists n, (n < N)%nat /\ frozen c n = true
               /\ forall k, (k < n)%nat -> frozen c k = false.
Proof.
  induction N as [|N [IH|(n & Hn & Hf & Hbefore)]].
  - left. intros k Hk. lia.
  - destruct (frozen c N) eqn:HN.
    + right. exists N. split; [lia|]. split; [exact HN | exact IH].
    + left. intros k Hk.
      destruct (decide (k = N)) as [->|Hne]; [exact HN | apply IH; lia].
  - right. exists n. split; [lia|]. split; assumption.
Qed.

Lemma above_floor (q : Q) (z : Z) :
  (Qfloor q + 1 <= z)%Z -> Qle_bool (inject_Z z) q = false.
Proof.
  intros Hz. apply not_true_is_false. intros Hle.
  apply Qle_bool_iff in Hle.
  pose proof (Qlt_floor q) as Hlt.
  apply (Qlt_not_le _ _ Hlt).
  eapply Qle_trans; [|exact Hle].
  rewrite <- Zle_Qle. exact Hz.
Qed.

(** X1. As long as the guard [b <= max_wait_time] has held at every earlier
    [yield], the [n]-th value the generator emits is the [n]-th Fibonacci
    number; under the default ceiling, infinity, that is every value. *)
Theorem wait_is_fibonacci (c : ceiling) (n : nat) :
  (forall k, (k < n)%nat -> frozen c k = false) -> wait c n = fib n.
Proof.
  intros H. rewrite wait_locals, (locals_fib c n H). reflexivity.
Qed.

Lemma wait_is_fibonacci_witness : wait PosInf 20 = fib 20.
Proof.
  apply (wait_is_fibonacci PosInf 20). intros k Hk. reflexivity.
Defined.

(** X2. Under a finite ceiling that is not negative the generator does stop
    growing: there is a first [yield] at which the guard fails, the value
    emitted there and ever after is a Fibonacci number within the ceiling,
    and the next Fibonacci number is beyond it. *)
Theorem finite_ceiling_settles (q : Q) :
  (0 <= q)%Q ->
  exists n,
    (forall k, (k < n)%nat -> frozen (Finite q) k = false)
    /\ frozen (Finite q) n = true
    /\ (inject_Z (fib n) <= q)%Q
    /\ (q < inject_Z (fib (S n)))%Q
    /\ forall m, (n <= m)%nat -> wait (Finite q) m = fib n.
Proof.
  intros Hq.
  assert (le_ceiling 0 (Finite q) = true) as H0.
  { simpl. apply Qle_bool_iff. exact Hq. }
  assert (exists n, frozen (Finite q) n = true
                    /\ forall k, (k < n)%nat -> frozen (Finite q) k = false)
    as (n & Hf & Hbefore).
  { set (N := Z.to_nat (Qfloor q + 1)).
    destruct (first_frozen (Finite q) N) as [Hall|(n & _ & Hf & Hb)].
    - exists N. split; [|exact Hall].
      unfold frozen. rewrite (locals_fib _ _ Hall). cbn [snd le_ceiling].
      rewrite above_floor; [reflexivity|].
      pose proof (fib_grows N) as (Hg & _). subst N. lia.
    - exists n. split; assumption. }
  exists n. split; [exact Hbefore|]. split; [exact Hf|].
  pose proof (locals_fib _ _ Hbefore) as Hloc.
  pose proof (wait_le_ceiling (Finite q) n H0) as Hle.
  rewrite wait_locals, Hloc in Hle. cbn [fst le_ceiling] in Hle.
  split; [apply Qle_bool_iff; exact Hle|]. split.
  - unfold frozen in Hf. rewrite Hloc in Hf. cbn [snd le_ceiling] in Hf.
    apply negb_true_iff in Hf. apply Qnot_le_lt. intros Hle'.
    apply Qle_bool_iff in Hle'. congruence.
  - intros m Hm. rewrite wait_locals, (frozen_locals _ _ _ Hf Hm), Hloc.
    reflexivity.
Qed.

Lemma finite_ceiling_settles_witness :
  exists n,
    (forall k, (k < n)%nat -> frozen (Finite 60) k = false)
    /\ frozen (Finite 60) n = true
    /\ (inject_Z (fib n) <= 60)%Q
    /\ (60 < inject_Z (fib (S n)))%Q
    /\ forall m, (n <= m)%nat -> wait (Finite 60) m = fib n.
Proof.
  apply (finite_ceiling_settles 60). unfold Qle. simpl. lia.
Defined.

(** X3. Under a ceiling that [1] does not pass (one below [1], minus
    infinity, or [nan]) the guard fails at the very first [yield], and the
    generator emits [0] for ever. *)
Theorem low_ceiling_emits_zero (c : ceiling) (n : nat) :
  le_ceiling 1 c = false -> frozen c 0 = true /\ wait c n = 0.
Proof.
  intros H1.
  assert (frozen c 0 = true) as Hf.
  { unfold frozen. simpl. rewrite H1. reflexivity. }
  split; [exact Hf|].
  rewrite wait_locals, (frozen_locals c 0 n Hf) by lia. reflexivity.
Qed.

Lemma low_ceiling_emits_zero_witness :
  frozen NaN 0 = true /\ wait NaN 7 = 0.
Proof. apply (low_ceiling_emits_zero NaN 7). reflexivity. Defined.

End BackoffExtra.

(** ** Whole runs of the summarizer's retry wrapper *)

Module RetryExtra.
Import Py Summarizer Reference BackoffFacts.

Lemma next_after c n : next c (after c n) = (wait c n, after c (S n)).
Proof. unfold wait. cbn [after]. destruct (next c (after c n)); reflexivity. Qed.

Lemma wait_nonneg c n : 0 <= wait c n.
Proof. rewrite wait_locals. apply (locals_ordered c n). Qed.

(** A duration within the range of [time.sleep] is slept, and the handler
    goes on. *)
Lemma sleep_then_nonneg {Env R} secs (w : world Env)
    (k : world Env -> outcome R * world Env) :
  0 <= secs <= max_sleep ->
  sleep_then secs w k = k {| env := env w; slept := slept w ++ [secs] |}.
Proof.
  intros H. unfold sleep_then, sleep.
  destruct (Z.ltb_spec secs (- max_sleep)); [unfold max_sleep in *; lia|].
  destruct (Z.ltb_spec max_sleep secs); [lia|].
  destruct (Z.ltb_spec secs 0); [lia | reflexivity].
Qed.


Lemma transient_cases e :
  transient e = true -> e = RateLimitError \/ e = InternalServerError.
Proof. destruct e; simpl; intros H; try discriminate; auto. Qed.

(** At ceiling 60 no emitted value is larger than 55. *)
Lemma wait_60_at_most_55 n : wait (Finite 60) n <= 55.
Proof.
  destruct (Nat.le_gt_cases 10 n) as [Hn|Hn].
  - rewrite wait_locals, (frozen_locals (Finite 60) 10 n eq_refl Hn).
    replace (fst (locals (Finite 60) 10)) with 55 by reflexivity. lia.
  - assert (forall d, wait (Finite 60) n <= wait (Finite 60) (n + d)) as Hmono.
    { induction d as [|d IH].
      - rewrite Nat.add_0_r. lia.
      - rewrite Nat.add_succ_r. pose proof (wait_step (Finite 60) (n + d)). lia. }
    specialize (Hmono (10 - n)%nat).
    replace (n + (10 - n))%nat with 10%nat in Hmono by lia.
    exact Hmono.
Qed.

Lemma wait_60_in_range n :
  0 <= wait (Finite 60) n <= max_sleep
  /\ 0 <= wait (Finite 60) n + 30 <= max_sleep.
Proof.
  pose proof (wait_nonneg (Finite 60) n).
  pose proof (wait_60_at_most_55 n). unfold max_sleep. lia.
Qed.

Section Wrapper.
Variable c : ceiling.
Context {Env R : Type}.
Variable func :
  list pyval -> list (string * pyval) -> world Env -> outcome R * world Env.


End Wrapper.


Section DecoratedAskClaude.
Variable remote : nat -> exn + response.

(** One execution of [ask_claude] with arguments that bind to a list of
    turns: one request, and the answer of the remote assistant. *)
Lemma ask_claude_func_bound args new_message items w :
  bind_ask_claude args [] = Some (new_message, PList items) ->
  call_func (ask_claude_func remote) args [] w
  = (match remote (length (requests (env w))) with
     | inl e => Raise e
     | inr resp => Ret (resp, PList (items ++ [new_message]))
     end,
     log_request (PList (items ++ [new_message])) w).
Proof.
  intros Hbind. unfold call_func. cbn [map]. rewrite app_nil_r.
  unfold ask_claude_func. rewrite Hbind. cbn [py_add_list].
  destruct (remote (length (requests (env w)))); reflexivity.
Qed.

Lemma ask_claude_retry_run args new_message items resp n :
  bind_ask_claude args [] = Some (new_message, PList items) ->
  forall fuel j w,
    (forall k, (k < n)%nat ->
       exists e, remote (length (requests (env w)) + k) = inl e
                 /\ transient e = true) ->
    remote (length (requests (env w)) + n) = inr resp ->
    (n < fuel)%nat ->
    exists w',
      wrapper_loop (Finite 60) (ask_claude_func remote) fuel
        (after (Finite 60) j) args [] w
      = (Ret (resp, PList (items ++ [new_message])), w')
      /\ requests (env w')
         = requests (env w) ++ replicate (S n) (PList (items ++ [new_message]))
      /\ slept w'
         = slept w
           ++ map (fun k => wait (Finite 60) (j + k)
                            + penalty (remote (length (requests (env w)) + k)))
                (seq 0 n).
Proof.
  intros Hbind. induction n as [|n IH]; intros fuel j w Hfail Hok Hfuel;
    (destruct fuel as [|fuel]; [lia|]);
    cbn [wrapper_loop]; rewrite (ask_claude_func_bound _ _ _ _ Hbind).
  - rewrite Nat.add_0_r in Hok. rewrite Hok.
    eexists. split; [reflexivity|]. cbn. rewrite app_nil_r. auto.
  - destruct (Hfail O ltac:(lia)) as (e & He & Ht).
    rewrite Nat.add_0_r in He. rewrite He. rewrite next_after.
    set (w1 := log_request (PList (items ++ [new_message])) w).
    assert (length (requests (env w1)) = S (length (requests (env w)))) as Hlen.
    { subst w1. cbn. rewrite length_app. cbn. lia. }
    assert (forall t, 0 <= t ->
              exists w',
                wrapper_loop (Finite 60) (ask_claude_func remote) fuel
                  (after (Finite 60) (S j)) args []
                  {| env := env w1; slept := slept w1 ++ [t] |}
                = (Ret (resp, PList (items ++ [new_message])), w')
                /\ requests (env w')
                   = requests (env w)
                     ++ replicate (S (S n)) (PList (items ++ [new_message]))
                /\ slept w'
                   = (slept w ++ [t])
                     ++ map (fun k => wait (Finite 60) (j + S k)
                                      + penalty (remote (length (requests (env w)) + S k)))
                          (seq 0 n)) as Hrest.
    { intros t Ht0.
      destruct (IH fuel (S j) {| env := env w1; slept := slept w1 ++ [t] |})
        as (w' & Hrun & Hreq & Hsl).
      - intros k Hk. cbn [env]. rewrite Hlen.
        replace (S (length (requests (env w))) + k)%nat
          with (length (requests (env w)) + S k)%nat by lia.
        apply Hfail. lia.
      - cbn [env]. rewrite Hlen.
        replace (S (length (requests (env w))) + n)%nat
          with (length (requests (env w)) + S n)%nat by lia.
        exact Hok.
      - lia.
      - exists w'. split; [exact Hrun|]. split.
        + rewrite Hreq. subst w1. cbn. rewrite <- app_assoc. reflexivity.
        + rewrite Hsl. cbn [slept env]. rewrite Hlen. f_equal.
          apply map_ext. intros k.
          replace (S j + k)%nat with (j + S k)%nat by lia.
          replace (S (length (requests (env w))) + k)%nat
            with (length (requests (env w)) + S k)%nat by lia.
          reflexivity. }
    cbn [seq map]. rewrite <- seq_shift, map_map.
    rewrite !Nat.add_0_r, He.
    destruct (transient_cases e Ht) as [->| ->]; cbn [is_rate_limit is_server_error penalty].
    + rewrite sleep_then_nonneg by apply (wait_60_in_range j).
      destruct (Hrest (wait (Finite 60) j) (wait_nonneg _ _)) as (w' & Hrun & Hreq & Hsl).
      exists w'. split; [exact Hrun|]. split; [exact Hreq|].
      rewrite Hsl, <- app_assoc, Z.add_0_r. reflexivity.
    + rewrite sleep_then_nonneg by apply (wait_60_in_range j).
      destruct (Hrest (wait (Finite 60) j + 30)) as (w' & Hrun & Hreq & Hsl).
      { pose proof (wait_nonneg (Finite 60) j). lia. }
      exists w'. split; [exact Hrun|]. split; [exact Hreq|].
      rewrite Hsl, <- app_assoc. reflexivity.
Qed.

(** X5. When the remote assistant answers the first [n] requests of the
    decorated [ask_claude] with rate-limit or server errors and the next one
    with a reply, the call returns that reply together with the turns it
    sent; it has sent the same turns [n + 1] times, and has slept, in order,
    the first [n] values of the backoff generator, each with thirty seconds
    more where the failure was a server error. *)
Theorem ask_claude_retries_until_answered
    (args : list pyval) (new_message : pyval) (items : list pyval)
    (resp : response) (n fuel : nat) (w : state) :
  bind_ask_claude args [] = Some (new_message, PList items) ->
  (forall k, (k < n)%nat ->
     exists e, remote (length (requests (env w)) + k) = inl e
               /\ transient e = true) ->
  remote (length (requests (env w)) + n) = inr resp ->
  (n < fuel)%nat ->
  exists w',
    ask_claude remote fuel args [] w
    = (Ret (resp, PList (items ++ [new_message])), w')
    /\ requests (env w')
       = requests (env w) ++ replicate (S n) (PList (items ++ [new_message]))
    /\ slept w'
       = slept w
         ++ map (fun k => wait (Finite 60) k
                          + penalty (remote (length (requests (env w)) + k)))
              (seq 0 n).
Proof.
  intros Hbind Hfail Hok Hfuel.
  exact (ask_claude_retry_run args new_message items resp n Hbind fuel 0 w
           Hfail Hok Hfuel).
Qed.
End DecoratedAskClaude.

Lemma ask_claude_retries_until_answered_witness :
  exists w',
    ask_claude MoreSamples.flaky 5 [summary_request "captions"] []
      Samples.fresh_state
    = (Ret (Samples.final_answer, PList ([] ++ [summary_request "captions"])), w')
    /\ requests (env w')
       = requests (env Samples.fresh_state)
         ++ replicate 3 (PList ([] ++ [summary_request "captions"]))
    /\ slept w'
       = slept Samples.fresh_state
         ++ map (fun k => wait (Finite 60) k
                          + penalty (MoreSamples.flaky
                                       (length (requests (env Samples.fresh_state)) + k)))
              (seq 0 2).
Proof.
  apply (ask_claude_retries_until_answered MoreSamples.flaky
           [summary_request "captions"] (summary_request "captions") []
           Samples.final_answer 2 5 Samples.fresh_state).
  - reflexivity.
  - intros k Hk. destruct k as [|[|k]].
    + exists RateLimitError. split; reflexivity.
    + exists InternalServerError. split; reflexivity.
    + lia.
  - reflexivity.
  - lia.
Defined.

Section Sleeps.
Variable remote : nat -> exn + response.

(** [ask_claude] itself does not sleep. *)
Lemma ask_claude_func_no_sleep args kwargs w :
  slept (snd (call_func (ask_claude_func remote) args kwargs w)) = slept w.
Proof.
  unfold call_func, ask_claude_func.
  destruct (bind_ask_claude _ _) as [[new_message messages]|]; [|reflexivity].
  destruct (py_add_list messages [new_message]); [|reflexivity].
  destruct (remote _); reflexivity.
Qed.

Lemma ask_claude_loop_sleeps fuel :
  forall n args kwargs w,
    exists new,
      slept (snd (wrapper_loop (Finite 60) (ask_claude_func remote) fuel
                    (after (Finite 60) n) args kwargs w))
      = slept w ++ new
      /\ Forall (fun secs => 0 <= secs <= 85) new.
Proof.
  induction fuel as [|fuel IH]; intros n args kwargs w.
  { exists []. cbn. rewrite app_nil_r. split; [reflexivity | constructor]. }
  cbn [wrapper_loop].
  pose proof (ask_claude_func_no_sleep args kwargs w) as Hs.
  pose proof (wait_nonneg (Finite 60) n) as H0.
  pose proof (wait_60_at_most_55 n) as H55.
  assert (forall t w1, 0 <= t <= 85 -> slept w1 = slept w ->
            exists new,
              slept (snd (sleep_then t w1
                            (wrapper_loop (Finite 60) (ask_claude_func remote)
                               fuel (after (Finite 60) (S n)) args kwargs)))
              = slept w ++ new
              /\ Forall (fun secs => 0 <= secs <= 85) new) as Hgo.
  { intros t w1 Ht Hw1. rewrite sleep_then_nonneg by (unfold max_sleep; lia).
    destruct (IH (S n) args kwargs {| env := env w1; slept := slept w1 ++ [t] |})
      as (new & Hnew & Hall).
    exists (t :: new). split.
    - rewrite Hnew. cbn [slept]. rewrite Hw1, <- app_assoc. reflexivity.
    - constructor; assumption. }
  destruct (call_func (ask_claude_func remote) args kwargs w)
    as [[r|e|] w1]; cbn [snd] in Hs.
  - exists []. cbn [snd]. rewrite app_nil_r. split; [exact Hs | constructor].
  - rewrite next_after.
    destruct (is_rate_limit e); [apply Hgo; [lia | exact Hs]|].
    destruct (is_server_error e); [apply Hgo; [lia | exact Hs]|].
    exists []. cbn [snd]. rewrite app_nil_r. split; [exact Hs | constructor].
  - exists []. cbn [snd]. rewrite app_nil_r. split; [exact Hs | constructor].
Qed.

(** X6. However a call of the decorated [ask_claude] goes and however long
    it runs, each of its sleeps lasts between 0 and 85 seconds: at most 55
    from the generator under the ceiling of 60, and 30 more after a server
    error. *)
Theorem ask_claude_sleeps_at_most_85
    (fuel : nat) (args : list pyval) (kwargs : list (string * pyval))
    (w : state) :
  exists new,
    slept (snd (ask_claude remote fuel args kwargs w)) = slept w ++ new
    /\ Forall (fun secs => 0 <= secs <= 85) new.
Proof. apply (ask_claude_loop_sleeps fuel 0). Qed.
End Sleeps.

End RetryExtra.

(** ** The summarizer from the command line to the request *)

Module SummarizerExtra.
Import Py Summarizer Reference Cli.

Section Script.
Variable remote : nat -> exn + response.
Variable extract_info :
  string -> exn + option (gmap string (option (gmap string string))).
Variable http_get : string -> exn + string.

(** [download_captions] makes no request to the remote assistant, sleeps
    and prints nothing. *)
Lemma download_captions_frame video_url w :
  let w' := snd (download_captions extract_info http_get video_url w) in
  requests (env w') = requests (env w)
  /\ printed (env w') = printed (env w) /\ slept w' = slept w.
Proof.
  unfold download_captions.
  destruct (extract_info video_url) as [e|[subs|]]; cbn; auto.
  destruct (decide (subs = ∅)); cbn; auto.
  destruct (subs !! "en") as [[en|]|]; cbn; auto.
  destruct (decide (en = ∅)); cbn; auto.
  destruct (en !! "url") as [url|]; cbn; auto.
  destruct (http_get url); cbn; auto.
Qed.

(** X7. [download_captions] returns a text exactly when the caption source
    lists an English track with a ["url"] field and fetching that URL
    succeeds; the text is what was fetched, and that URL is the one fetch
    made. *)
Theorem download_captions_returns_fetched_text
    (video_url text : string) (w w' : state) :
  download_captions extract_info http_get video_url w = (Ret (Some text), w')
  <-> exists subs en url,
        extract_info video_url = inr (Some subs)
        /\ subs !! "en" = Some (Some en)
        /\ en !! "url" = Some url
        /\ http_get url = inr text
        /\ w' = log_fetch url w.
Proof.
  unfold download_captions. split.
  - destruct (extract_info video_url) as [e|[subs|]]; try discriminate.
    destruct (decide (subs = ∅)); try discriminate.
    destruct (subs !! "en") as [[en|]|] eqn:Hen; try discriminate.
    destruct (decide (en = ∅)); try discriminate.
    destruct (en !! "url") as [url|] eqn:Hurl; try discriminate.
    destruct (http_get url) as [e|t] eqn:Hget; try discriminate.
    intros [= <- <-]. exists subs, en, url. auto.
  - intros (subs & en & url & -> & Hen & Hurl & Hget & ->).
    rewrite decide_False by (intros ->; rewrite lookup_empty in Hen; discriminate).
    rewrite Hen.
    rewrite decide_False by (intros ->; rewrite lookup_empty in Hurl; discriminate).
    rewrite Hurl, Hget. reflexivity.
Qed.

(** X8. [main] sends something to the remote assistant only after
    [download_captions] has returned a text that is not empty: a failure of
    the caption source, a missing track or an empty subtitle file all end
    [main] without a request. *)
Theorem main_requests_need_captions
    (fuel : nat) (video_url : string) (w : state) :
  requests (env (snd (main remote extract_info http_get fuel video_url w)))
  <> requests (env w) ->
  exists text w1,
    download_captions extract_info http_get video_url w = (Ret (Some text), w1)
    /\ text <> EmptyString.
Proof.
  unfold main.
  pose proof (download_captions_frame video_url w) as (Hreq & _).
  destruct (download_captions extract_info http_get video_url w)
    as [[[text|]|e|] w1]; cbn [snd] in Hreq; cbn [snd]; intros Hne;
    try (exfalso; apply Hne; exact Hreq).
  destruct (decide (text = EmptyString)) as [->|Htext].
  - exfalso. apply Hne. exact Hreq.
  - exists text, w1. split; [reflexivity | exact Htext].
Qed.

(** X9. From the command line. When [sys.argv] is not a program name
    followed by one URL that starts with [https://www.youtube.com/watch?v=],
    the script ends through [sys.exit(1)], having fetched, sent and printed
    nothing. When it is, the script hands exactly that URL to [main] and ends
    as [main] does, never through [sys.exit]. *)
Theorem script_rejects_bad_command_line
    (argv : list string) (fuel : nat) (w : state) :
  ((~ exists prog rest, argv = [prog; url_prefix +:+ rest]) ->
   script remote extract_info http_get argv fuel w = (Exit 1, w))
  /\ (forall prog rest,
        argv = [prog; url_prefix +:+ rest] ->
        script remote extract_info http_get argv fuel w
        = (Ran (fst (main remote extract_info http_get fuel
                       (url_prefix +:+ rest) w)),
           snd (main remote extract_info http_get fuel
                  (url_prefix +:+ rest) w))).
Proof.
  unfold script. split.
  - intros Hbad.
    destruct (decide (length argv <> 2%nat)) as [|Hlen]; [reflexivity|].
    destruct argv as [|prog [|video_url [|? ?]]]; cbn in Hlen; try lia.
    cbn [lookup list_lookup].
    destruct (String.prefix url_prefix video_url) eqn:Hp; [|reflexivity].
    exfalso. apply Hbad.
    apply CapabilityFacts.prefix_split in Hp as [rest ->].
    exists prog, rest. reflexivity.
  - intros prog rest ->.
    rewrite decide_False by (cbn; lia).
    cbn [lookup list_lookup].
    rewrite CapabilityFacts.prefix_append. cbn [negb].
    destruct (main _ _ _ fuel _ w). reflexivity.
Qed.

(** X10. End to end: once the captions are fetched and not empty, and the
    remote assistant, after [n] rate-limit or server errors, replies with a
    text segment first, [main] returns having printed exactly that text, and
    having sent [n + 1] times the same single turn: the captions followed by
    the question. *)
Theorem main_prints_first_text
    (fuel n : nat) (video_url captions text : string) (w w1 : state)
    (resp : response) (rest : list block) :
  download_captions extract_info http_get video_url w = (Ret (Some captions), w1) ->
  captions <> EmptyString ->
  (forall k, (k < n)%nat ->
     exists e, remote (length (requests (env w)) + k) = inl e
               /\ transient e = true) ->
  remote (length (requests (env w)) + n) = inr resp ->
  content resp = TextBlock text :: rest ->
  (n < fuel)%nat ->
  exists w',
    main remote extract_info http_get fuel video_url w = (Ret tt, w')
    /\ printed (env w') = printed (env w) ++ [text]
    /\ requests (env w')
       = requests (env w) ++ replicate (S n) (PList [summary_request captions]).
Proof.
  intros Hdl Hne Hfail Hok Hcontent Hfuel.
  pose proof (download_captions_frame video_url w) as (Hreq & Hpr & _).
  rewrite Hdl in Hreq, Hpr. cbn [snd] in Hreq, Hpr.
  unfold main. rewrite Hdl. rewrite decide_False by exact Hne.
  destruct (RetryExtra.ask_claude_retry_run remote
              [summary_request captions] (summary_request captions) []
              resp n eq_refl fuel 0 w1) as (w2 & Hrun & Hreq2 & _).
  { rewrite Hreq. exact Hfail. }
  { rewrite Hreq. exact Hok. }
  { exact Hfuel. }
  cbn [after] in Hrun.
  unfold ask_claude, wrapper. rewrite Hrun, Hcontent.
  eexists. split; [reflexivity|]. cbn [print env printed requests].
  split; [|rewrite Hreq2, Hreq; reflexivity].
  assert (printed (env w2) = printed (env w1)) as ->; [|rewrite Hpr; reflexivity].
  clear -Hrun.
  assert (forall fuel' g w0,
            printed (env (snd (wrapper_loop (Finite 60) (ask_claude_func remote)
                                 fuel' g [summary_request captions] [] w0)))
            = printed (env w0)) as Hframe.
  { induction fuel' as [|fuel' IH]; intros g w0; [reflexivity|].
    cbn [wrapper_loop]. unfold call_func, ask_claude_func. cbn.
    destruct (remote (length (requests (env w0)))) as [e|r]; [|reflexivity].
    destruct (next (Finite 60) g) as [t g'].
    destruct (is_rate_limit e).
    { unfold sleep_then, sleep.
      destruct ((t <? - max_sleep) || (max_sleep <? t)); [reflexivity|].
      destruct (t <? 0); [reflexivity|]. rewrite IH. reflexivity. }
    destruct (is_server_error e); [|reflexivity].
    unfold sleep_then, sleep.
    destruct ((t + 30 <? - max_sleep) || (max_sleep <? t + 30)); [reflexivity|].
    destruct (t + 30 <? 0); [reflexivity|]. rewrite IH. reflexivity. }
  specialize (Hframe fuel Fresh w1).
  rewrite Hrun in Hframe. exact Hframe.
Qed.
End Script.

Lemma main_requests_need_captions_witness :
  exists text w1,
    download_captions MoreSamples.english_track MoreSamples.serves_captions
      "https://www.youtube.com/watch?v=abc" Samples.fresh_state
    = (Ret (Some text), w1)
    /\ text <> EmptyString.
Proof.
  apply (main_requests_need_captions Samples.obliging
           MoreSamples.english_track MoreSamples.serves_captions 3
           "https://www.youtube.com/watch?v=abc" Samples.fresh_state).
  vm_compute. discriminate.
Defined.

Lemma main_prints_first_text_witness :
  exists w',
    main MoreSamples.flaky MoreSamples.english_track MoreSamples.serves_captions
      5 "https://www.youtube.com/watch?v=abc" Samples.fresh_state
    = (Ret tt, w')
    /\ printed (env w') = printed (env Samples.fresh_state) ++ ["Go and see it."]
    /\ requests (env w')
       = requests (env Samples.fresh_state)
         ++ replicate 3 (PList [summary_request "WEBVTT hello world"]).
Proof.
  eapply (main_prints_first_text MoreSamples.flaky MoreSamples.english_track
            MoreSamples.serves_captions 5 2
            "https://www.youtube.com/watch?v=abc" "WEBVTT hello world"
            "Go and see it." Samples.fresh_state _ Samples.final_answer []).
  - vm_compute. reflexivity.
  - discriminate.
  - intros k Hk. destruct k as [|[|k]].
    + exists RateLimitError. split; reflexivity.
    + exists InternalServerError. split; reflexivity.
    + lia.
  - reflexivity.
  - reflexivity.
  - lia.
Defined.

Lemma script_rejects_bad_command_line_witness :
  script Samples.obliging MoreSamples.english_track MoreSamples.serves_captions
    ["youtube_summarizer.py"; "https://vimeo.com/1"] 3 Samples.fresh_state
  = (Exit 1, Samples.fresh_state).
Proof.
  apply (proj1 (script_rejects_bad_command_line Samples.obliging
                  MoreSamples.english_track MoreSamples.serves_captions
                  ["youtube_summarizer.py"; "https://vimeo.com/1"] 3
                  Samples.fresh_state)).
  intros (prog & rest & H). injection H as _ H. discriminate H.
Defined.

Lemma download_captions_returns_fetched_text_witness :
  download_captions MoreSamples.english_track MoreSamples.serves_captions
    "https://www.youtube.com/watch?v=abc" Samples.fresh_state
  = (Ret (Some "WEBVTT hello world"),
     log_fetch "https://captions.example/en.vtt" Samples.fresh_state).
Proof.
  apply (proj2 (download_captions_returns_fetched_text
                  MoreSamples.english_track MoreSamples.serves_captions
                  "https://www.youtube.com/watch?v=abc" "WEBVTT hello world"
                  Samples.fresh_state
                  (log_fetch "https://captions.example/en.vtt" Samples.fresh_state))).
  exists {[ "en" := Some {[ "url" := "https://captions.example/en.vtt" ]} ]},
         {[ "url" := "https://captions.example/en.vtt" ]},
         "https://captions.example/en.vtt".
  repeat split; reflexivity.
Defined.

End SummarizerExtra.

(** ** The two capabilities and their lookup *)

Module CapabilityExtra.
Import Py ToolUse Schemas.

Lemma contains_append_r needle pre hay :
  contains needle hay = true -> contains needle (pre +:+ hay) = true.
Proof.
  intros H. induction pre as [|a pre IH]; [exact H|].
  change (String a pre +:+ hay) with (String a (pre +:+ hay)).
  cbn [contains]. rewrite IH. apply orb_true_r.
Qed.

(** X11. For every topic, the facts capability answers with a text that
    contains both ["It's purple"] and ["Northsborough, New Hampshire"]. *)
Theorem get_facts_mentions_purple_and_northsborough (topic : string) :
  contains "It's purple" (get_facts topic) = true
  /\ contains "Northsborough, New Hampshire" (get_facts topic) = true.
Proof.
  unfold get_facts. split;
    apply contains_append_r, contains_append_r; vm_compute; reflexivity.
Qed.

(** X12. For a location that does not contain ["Northsborough"], the weather
    capability does not ask back: it answers that it is 70 and sunny in that
    location, with the location spelled as given. *)
Theorem get_weather_elsewhere (location : string) :
  (~ exists pre post, location = pre +:+ "Northsborough" +:+ post) ->
  get_weather location = "It's 70 and sunny in " +:+ location +:+ "!"
  /\ get_weather location <> "Did you mean Northborough, MA?".
Proof.
  intros Hno. unfold get_weather.
  destruct (contains "Northsborough" location) eqn:Hc.
  - exfalso. apply Hno. apply CapabilityFacts.contains_spec. exact Hc.
  - split; [reflexivity | discriminate].
Qed.

Lemma get_weather_elsewhere_witness :
  get_weather "Boston, MA" = "It's 70 and sunny in " +:+ "Boston, MA" +:+ "!"
  /\ get_weather "Boston, MA" <> "Did you mean Northborough, MA?".
Proof.
  apply (get_weather_elsewhere "Boston, MA").
  intros Hex. apply CapabilityFacts.contains_spec in Hex. discriminate Hex.
Defined.

(** X13. On an input whose values are strings, [handle_tool_use] fails only
    for want of a key: it raises exactly when the name is [get_weather] and
    the input has no ["location"], or the name is [get_facts] and the input
    has no ["topic"], and what it raises is the [KeyError] of that key. *)
Theorem handle_tool_use_raises_on_missing_key
    (name : string) (input : gmap string string) (w : world) (e : exn) :
  fst (handle_tool_use name input w) = Raise e
  <-> (name = "get_weather" /\ input !! "location" = None
       /\ e = KeyError "location")
      \/ (name = "get_facts" /\ input !! "topic" = None
          /\ e = KeyError "topic").
Proof.
  split.
  - unfold handle_tool_use, bind, print, subscript.
    destruct (String.eqb_spec name "get_weather") as [->|Hw].
    { destruct (input !! "location"); cbn; [discriminate|].
      intros [= <-]. left. auto. }
    destruct (String.eqb_spec name "get_facts") as [->|Hf].
    { destruct (input !! "topic"); cbn; [discriminate|].
      intros [= <-]. right. auto. }
    cbn. discriminate.
  - intros [(-> & Hl & ->)|(-> & Ht & ->)];
      unfold handle_tool_use, bind, print, subscript; cbn.
    + rewrite Hl. reflexivity.
    + rewrite Ht. reflexivity.
Qed.

Lemma handle_tool_use_raises_on_missing_key_witness :
  fst (handle_tool_use "get_facts" {[ "location" := "Boston" ]} initial)
  = Raise (KeyError "topic").
Proof.
  apply (proj2 (handle_tool_use_raises_on_missing_key "get_facts"
                  {[ "location" := "Boston" ]} initial (KeyError "topic"))).
  right. repeat split; reflexivity.
Defined.

(** X14. On inputs whose values are strings, the descriptors sent to the
    remote assistant protect one capability and not the other: an input with
    the keys that the descriptor of [get_weather] requires is always
    answered, while one with the keys that the descriptor of [get_facts]
    requires (it names ["location"]) and no ["topic"] makes
    [handle_tool_use] raise [KeyError]. *)
Theorem required_keys_protect_get_weather_only
    (input : gmap string string) (w : world) :
  (has_required "get_weather" input ->
   exists location,
     input !! "location" = Some location
     /\ fst (handle_tool_use "get_weather" input w) = Ret (get_weather location))
  /\ (has_required "get_facts" input -> input !! "topic" = None ->
      is_Some (input !! "location")
      /\ fst (handle_tool_use "get_facts" input w) = Raise (KeyError "topic")).
Proof.
  split.
  - intros (d & Hd & Hname & Hreq).
    assert (d = {| tool_name := "get_weather"; properties := ["location"];
                   required := ["location"] |}) as ->.
    { unfold tools in Hd. apply elem_of_cons in Hd as [->|Hd]; [reflexivity|].
      apply elem_of_cons in Hd as [->|Hd]; [discriminate Hname|].
      apply elem_of_nil in Hd as []. }
    cbn in Hreq. apply Forall_cons in Hreq as [[location Hl] _].
    exists location. split; [exact Hl|].
    unfold handle_tool_use, bind, print, subscript. cbn. rewrite Hl. reflexivity.
  - intros (d & Hd & Hname & Hreq) Htopic.
    assert (d = {| tool_name := "get_facts"; properties := ["topic"];
                   required := ["location"] |}) as ->.
    { unfold tools in Hd. apply elem_of_cons in Hd as [->|Hd]; [discriminate Hname|].
      apply elem_of_cons in Hd as [->|Hd]; [reflexivity|].
      apply elem_of_nil in Hd as []. }
    cbn in Hreq. apply Forall_cons in Hreq as [Hl _].
    split; [exact Hl|].
    unfold handle_tool_use, bind, print, subscript. cbn. rewrite Htopic. reflexivity.
Qed.

Lemma required_keys_protect_get_weather_only_witness :
  (exists location,
     ({[ "location" := "Boston" ]} : gmap string string) !! "location"
     = Some location
     /\ fst (handle_tool_use "get_weather" {[ "location" := "Boston" ]} initial)
        = Ret (get_weather location))
  /\ (is_Some (({[ "location" := "Boston" ]} : gmap string string) !! "location")
      /\ fst (handle_tool_use "get_facts" {[ "location" := "Boston" ]} initial)
         = Raise (KeyError "topic")).
Proof.
  destruct (required_keys_protect_get_weather_only
              {[ "location" := "Boston" ]} initial) as [Hw Hf].
  split.
  - apply Hw. eexists. split; [apply list_elem_of_here|].
    split; [reflexivity|]. repeat constructor. eexists. reflexivity.
  - apply Hf; [|reflexivity].
    eexists. split; [apply list_elem_of_further, list_elem_of_here|].
    split; [reflexivity|]. repeat constructor. eexists. reflexivity.
Defined.

End CapabilityExtra.

(** ** One round of the dispatch loop *)

Module DispatchExtra.
Import Py ToolUse Conversation Samples DispatchFacts.
Local Open Scope py_scope.

Lemma first_tool_use_inv blocks w id name input w' :
  first_tool_use blocks w = (Ret (id, name, input), w') ->
  w' = w
  /\ exists pre rest,
       blocks = pre ++ ToolUseBlock id name input :: rest
       /\ Forall (fun b => block_type b = "text") pre.
Proof.
  induction blocks as [|[text|id0 name0 input0] blocks IH]; cbn.
  - discriminate.
  - intros H. destruct (IH H) as (-> & pre & rest & -> & Hpre).
    split; [reflexivity|]. exists (TextBlock text :: pre), rest.
    split; [reflexivity|]. constructor; [reflexivity | exact Hpre].
  - intros [= <- <- <- <-]. split; [reflexivity|].
    exists [], blocks. split; [reflexivity | constructor].
Qed.

Lemma first_tool_use_none blocks w :
  fst (first_tool_use blocks w) = Raise StopIteration
  <-> Forall (fun b => block_type b <> "tool_use") blocks.
Proof.
  induction blocks as [|[text|id name input] blocks IH]; cbn.
  - split; [constructor | reflexivity].
  - rewrite IH. split.
    + intros H. constructor; [discriminate | exact H].
    + intros H. apply Forall_cons in H as [_ H]. exact H.
  - split; [discriminate|].
    intros H. apply Forall_cons in H as [H _]. contradiction H. reflexivity.
Qed.

Lemma first_text_none blocks w :
  fst (first_text blocks w) = Raise StopIteration
  <-> Forall (fun b => block_type b <> "text") blocks.
Proof.
  induction blocks as [|[text|id name input] blocks IH]; cbn.
  - split; [constructor | reflexivity].
  - split; [discriminate|].
    intros H. apply Forall_cons in H as [H _]. contradiction H. reflexivity.
  - rewrite IH. split.
    + intros H. constructor; [discriminate | exact H].
    + intros H. apply Forall_cons in H as [_ H]. exact H.
Qed.

Lemma first_text_outcome blocks w :
  (exists text, first_text blocks w = (Ret text, w))
  \/ first_text blocks w = (Raise StopIteration, w).
Proof.
  induction blocks as [|[text|id name input] blocks IH]; cbn.
  - right. reflexivity.
  - left. exists text. reflexivity.
  - exact IH.
Qed.

Lemma first_tool_use_outcome blocks w :
  (exists request, first_tool_use blocks w = (Ret request, w))
  \/ first_tool_use blocks w = (Raise StopIteration, w).
Proof.
  induction blocks as [|[text|id name input] blocks IH]; cbn.
  - right. reflexivity.
  - exact IH.
  - left. eexists. reflexivity.
Qed.

Lemma handle_tool_use_not_stop name input w :
  fst (handle_tool_use name input w) <> Raise StopIteration.
Proof.
  unfold handle_tool_use, bind, print, subscript.
  destruct (String.eqb name "get_weather").
  { destruct (input !! "location"); cbn; discriminate. }
  destruct (String.eqb name "get_facts").
  { destruct (input !! "topic"); cbn; discriminate. }
  cbn. discriminate.
Qed.

(** X15. When the [tool_use] branch of the loop succeeds, the next user turn
    is a single tool result, and it answers the first capability request of
    the reply: it carries that request's identifier and what
    [handle_tool_use] returned for its name and input. Requests further down
    the same reply get no result. *)
Theorem dispatch_answers_first_request
    (resp : response) (w w' : world) (user_content : payload) :
  dispatch resp w = (Ret user_content, w') ->
  exists pre id name input rest answer w0 w1,
    content resp = pre ++ ToolUseBlock id name input :: rest
    /\ Forall (fun b => block_type b = "text") pre
    /\ handle_tool_use name input w0 = (Ret answer, w1)
    /\ user_content = ToolResults [{| tool_use_id := id; result := answer |}].
Proof.
  unfold dispatch. unfold bind at 1.
  destruct ((if decide (1 < length (content resp))%nat
             then bind (first_text (content resp))
                    (fun thoughts => print (PrintedThinking thoughts))
             else ret tt) w) as [[[]|e|] w0]; [|discriminate|discriminate].
  unfold bind at 1.
  destruct (first_tool_use (content resp) w0) as [[[[id name] input]|e|] w0']
    eqn:Hfirst; [|discriminate|discriminate].
  apply first_tool_use_inv in Hfirst as (-> & pre & rest & Hc & Hpre).
  unfold bind.
  destruct (handle_tool_use name input w0) as [[answer|e|] w1] eqn:Hh;
    [|discriminate|discriminate].
  unfold ret. intros [= <- <-].
  exists pre, id, name, input, rest, answer, w0, w1. auto.
Qed.

Lemma dispatch_answers_first_request_witness :
  exists pre id name input rest answer w0 w1,
    content MoreSamples.thinks_and_asks_twice
    = pre ++ ToolUseBlock id name input :: rest
    /\ Forall (fun b => block_type b = "text") pre
    /\ handle_tool_use name input w0 = (Ret answer, w1)
    /\ ToolResults [{| tool_use_id := "toolu_1"; result := "n/a" |}]
       = ToolResults [{| tool_use_id := id; result := answer |}].
Proof.
  eapply (dispatch_answers_first_request MoreSamples.thinks_and_asks_twice
            started _
            (ToolResults [{| tool_use_id := "toolu_1"; result := "n/a" |}])).
  reflexivity.
Defined.

Lemma first_text_cases blocks :
  (Forall (fun b => block_type b <> "text") blocks
   /\ forall w, first_text blocks w = (Raise StopIteration, w))
  \/ (~ Forall (fun b => block_type b <> "text") blocks
      /\ exists text, forall w, first_text blocks w = (Ret text, w)).
Proof.
  induction blocks as [|[text|id name input] blocks IH]; cbn.
  - left. split; [constructor | reflexivity].
  - right. split; [|exists text; reflexivity].
    intros H. apply Forall_cons in H as [H _]. contradiction H. reflexivity.
  - destruct IH as [[Hno Hw]|[Hsome Hw]]; [left | right]; split; try exact Hw.
    + constructor; [discriminate | exact Hno].
    + intros H. apply Forall_cons in H as [_ H]. contradiction.
Qed.

Lemma first_tool_use_cases blocks :
  (Forall (fun b => block_type b <> "tool_use") blocks
   /\ forall w, first_tool_use blocks w = (Raise StopIteration, w))
  \/ (~ Forall (fun b => block_type b <> "tool_use") blocks
      /\ exists request, forall w, first_tool_use blocks w = (Ret request, w)).
Proof.
  induction blocks as [|[text|id name input] blocks IH]; cbn.
  - left. split; [constructor | reflexivity].
  - destruct IH as [[Hno Hw]|[Hsome Hw]]; [left | right]; split; try exact Hw.
    + constructor; [discriminate | exact Hno].
    + intros H. apply Forall_cons in H as [_ H]. contradiction.
  - right. split; [|eexists; reflexivity].
    intros H. apply Forall_cons in H as [H _]. contradiction H. reflexivity.
Qed.

(** After the request is found, nothing in the branch raises
    [StopIteration]. *)
Lemma answer_not_stop id name input w :
  fst (bind (handle_tool_use name input)
         (fun tool_response =>
            ret (ToolResults [{| tool_use_id := id; result := tool_response |}]))
         w)
  <> Raise StopIteration.
Proof.
  unfold bind.
  pose proof (handle_tool_use_not_stop name input w) as Hns.
  destruct (handle_tool_use name input w) as [[answer|e|] w1]; cbn in *;
    [discriminate | intros [= ->]; apply Hns; reflexivity | discriminate].
Qed.

(** X16. The [tool_use] branch lets [StopIteration] escape in exactly two
    cases: the reply has more than one segment and none of them is text, or
    the reply has no capability request at all. *)
Theorem dispatch_stop_iteration (resp : response) (w : world) :
  fst (dispatch resp w) = Raise StopIteration
  <-> ((1 < length (content resp))%nat
       /\ Forall (fun b => block_type b <> "text") (content resp))
      \/ Forall (fun b => block_type b <> "tool_use") (content resp).
Proof.
  assert (forall w0,
            fst (bind (first_tool_use (content resp))
                   (fun tool_use =>
                      let '(id, name, input) := tool_use in
                      bind (handle_tool_use name input)
                        (fun tool_response =>
                           ret (ToolResults
                                  [{| tool_use_id := id;
                                      result := tool_response |}]))) w0)
            = Raise StopIteration
            <-> Forall (fun b => block_type b <> "tool_use") (content resp))
    as Hrest.
  { intros w0. unfold bind at 1.
    destruct (first_tool_use_cases (content resp))
      as [[Hnu Hu]|[Hnu [[[id name] input] Hu]]]; rewrite Hu.
    - cbn. tauto.
    - pose proof (answer_not_stop id name input w0). tauto. }
  unfold dispatch. unfold bind at 1.
  destruct (decide (1 < length (content resp))%nat) as [Hlen|Hlen].
  - unfold bind at 1.
    destruct (first_text_cases (content resp)) as [[Hnt Ht]|[Hnt [text Ht]]];
      rewrite Ht.
    + cbn. tauto.
    + unfold print. rewrite Hrest. tauto.
  - unfold ret at 1. rewrite Hrest. split; [tauto|].
    intros [[H _]|H]; [lia | exact H].
Qed.

Lemma alternates_snoc user_next turns turn :
  alternates user_next (turns ++ [turn])
  = alternates user_next turns
    && String.eqb (role turn)
         (if xorb user_next (Nat.odd (length turns)) then "user" else "assistant").
Proof.
  revert user_next. induction turns as [|t turns IH]; intros user_next.
  - cbn. rewrite xorb_false_r, andb_true_r. reflexivity.
  - cbn [app alternates length]. rewrite IH, Nat.odd_succ, <- Nat.negb_odd.
    rewrite andb_assoc. do 2 f_equal.
    destruct user_next, (Nat.odd (length turns)); reflexivity.
Qed.

(** A user turn behind an even number of alternating turns makes a request
    of the right shape, and an assistant turn behind that an even number
    again. *)
Lemma request_shape turns content_u content_a :
  alternates true turns = true -> Nat.even (length turns) = true ->
  well_formed (turns ++ [{| role := "user"; body := content_u |}])
  /\ alternates true
       ((turns ++ [{| role := "user"; body := content_u |}])
          ++ [{| role := "assistant"; body := content_a |}]) = true
  /\ Nat.even (length ((turns ++ [{| role := "user"; body := content_u |}])
                         ++ [{| role := "assistant"; body := content_a |}]))
     = true.
Proof.
  intros Halt Heven.
  assert (Nat.odd (length turns) = false) as Hodd
    by (rewrite <- Nat.negb_even, Heven; reflexivity).
  assert (alternates true (turns ++ [{| role := "user"; body := content_u |}])
          = true) as H1.
  { rewrite alternates_snoc, Halt, Hodd. reflexivity. }
  assert (Nat.odd (length (turns ++ [{| role := "user"; body := content_u |}]))
          = true) as H2.
  { rewrite length_app. cbn [length]. rewrite Nat.add_1_r, Nat.odd_succ.
    exact Heven. }
  split; [split; assumption|]. split.
  - rewrite alternates_snoc, H1, H2. reflexivity.
  - rewrite length_app. cbn [length]. rewrite Nat.add_1_r, Nat.even_succ.
    exact H2.
Qed.

Section Script.
Variable remote : nat -> exn + response.

(** X17. Run over [ask_claude] itself, the loop of [main] ends with the first
    reply that does not stop for a tool use, provided every reply before it
    stops for a tool use and can be dispatched: it returns that reply, after
    exactly one request per reply. *)
Theorem dispatch_loop_returns_final_reply (n : nat) :
  forall (fuel : nat) (user_content : payload) (messages : loc) (w : world)
         (final : response),
    (forall k, (k < n)%nat ->
       exists resp, remote (length (sent w) + k) = inr resp
                    /\ stop_reason resp = "tool_use" /\ dispatches resp) ->
    remote (length (sent w) + n) = inr final ->
    stop_reason final <> "tool_use" ->
    (n < fuel)%nat ->
    exists w',
      main_loop (ask_claude remote) fuel user_content messages w
      = (Ret final, w')
      /\ length (sent w') = (length (sent w) + S n)%nat.
Proof.
  induction n as [|n IH];
    intros fuel user_content messages w final Hpre Hfin Hstop Hfuel;
    (destruct fuel as [|fuel]; [lia|]);
    cbn [main_loop]; unfold bind at 1; rewrite ask_claude_eq.
  - rewrite Nat.add_0_r in Hfin. rewrite Hfin.
    unfold bind at 1, append at 1.
    apply String.eqb_neq in Hstop. rewrite Hstop.
    eexists. split; [reflexivity|]. cbn. rewrite length_app. reflexivity.
  - destruct (Hpre O ltac:(lia)) as (resp & Hr & Ht & Hd).
    rewrite Nat.add_0_r in Hr. rewrite Hr.
    unfold bind at 1, append at 1. rewrite Ht, String.eqb_refl.
    unfold bind.
    match goal with
    | |- context [dispatch resp ?w0] =>
        destruct (Hd w0) as (uc & w3 & Hrun);
        destruct (quiet_dispatch resp w0) as [_ Hs];
        rewrite Hrun in Hs |- *
    end.
    cbn [snd sent] in Hs.
    assert (length (sent w3) = S (length (sent w))) as Hlen.
    { rewrite Hs, length_app. cbn. lia. }
    destruct (IH fuel uc (length (heap w)) w3 final) as (w' & Hrun' & Hcount).
    + intros k Hk. rewrite Hlen.
      replace (S (length (sent w)) + k)%nat with (length (sent w) + S k)%nat by lia.
      apply Hpre. lia.
    + rewrite Hlen.
      replace (S (length (sent w)) + n)%nat with (length (sent w) + S n)%nat by lia.
      exact Hfin.
    + exact Hstop.
    + lia.
    + exists w'. split; [exact Hrun'|]. rewrite Hcount, Hlen. lia.
Qed.

Lemma main_loop_requests_well_formed fuel :
  forall user_content messages w turns,
    heap w !! messages = Some turns ->
    alternates true turns = true -> Nat.even (length turns) = true ->
    exists new,
      sent (snd (main_loop (ask_claude remote) fuel user_content messages w))
      = sent w ++ new
      /\ Forall well_formed new.
Proof.
  induction fuel as [|fuel IH]; intros user_content messages w turns Hm Halt Heven.
  { exists []. cbn. rewrite app_nil_r. split; [reflexivity | constructor]. }
  destruct (main_loop (ask_claude remote) (S fuel) user_content messages w)
    as [o w'] eqn:Hrun.
  cbn [main_loop] in Hrun. unfold bind at 1 in Hrun.
  rewrite ask_claude_eq, Hm in Hrun. cbn [default] in Hrun. cbn [snd].
  set (request := turns ++ [{| role := "user"; body := user_content |}]) in *.
  assert (forall content_a,
            well_formed request
            /\ alternates true
                 (request ++ [{| role := "assistant"; body := content_a |}]) = true
            /\ Nat.even (length (request
                           ++ [{| role := "assistant"; body := content_a |}]))
               = true) as Hshape
    by (intros; apply request_shape; assumption).
  assert (Forall well_formed [request]) as Hone.
  { constructor; [apply (Hshape (Text EmptyString)) | constructor]. }
  destruct (remote (length (sent w))) as [e|resp].
  { injection Hrun as <- <-. exists [request]. split; [reflexivity | exact Hone]. }
  unfold bind at 1, append at 1 in Hrun.
  match type of Hrun with
  | _ ?world_after_append = _ => set (w2 := world_after_append) in *
  end.
  assert (heap w2 !! length (heap w)
          = Some (request ++ [{| role := "assistant";
                                 body := Blocks (content resp) |}])) as Hlook.
  { subst w2. cbn [heap].
    rewrite list_lookup_insert_eq by (rewrite length_app; cbn; lia).
    rewrite list_lookup_middle by reflexivity. reflexivity. }
  destruct (String.eqb (stop_reason resp) "tool_use").
  2:{ injection Hrun as <- <-. exists [request]. split; [reflexivity | exact Hone]. }
  unfold bind in Hrun.
  destruct (quiet_dispatch resp w2) as [Hqh Hqs].
  destruct (dispatch resp w2) as [[user_content'|e|] w3];
    cbn [snd] in Hqh, Hqs; cbv beta iota in Hrun.
  - destruct (Hshape (Blocks (content resp))) as (_ & Ha & He).
    destruct (IH user_content' (length (heap w)) w3 _
                ltac:(rewrite Hqh; exact Hlook) Ha He) as (new & Hs & Hall).
    rewrite Hrun in Hs. cbn [snd] in Hs.
    exists (request :: new). split.
    + rewrite Hs, Hqs. cbn. rewrite <- app_assoc. reflexivity.
    + constructor; [apply (Hshape (Text EmptyString)) | exact Hall].
  - injection Hrun as <- <-. exists [request].
    split; [rewrite Hqs; reflexivity | exact Hone].
  - injection Hrun as <- <-. exists [request].
    split; [rewrite Hqs; reflexivity | exact Hone].
Qed.

(** X18. Started on a list of turns that alternates between user and
    assistant and ends with the assistant (or is empty, as in [main]), the
    loop over [ask_claude] only ever sends sequences of turns that alternate
    between user and assistant and both begin and end with a user turn. *)
Theorem dispatch_loop_requests_alternate
    (fuel : nat) (user_content : payload) (messages : loc) (w : world)
    (turns : list message) :
  heap w !! messages = Some turns ->
  alternates true turns = true -> Nat.even (length turns) = true ->
  exists new,
    sent (snd (main_loop (ask_claude remote) fuel user_content messages w))
    = sent w ++ new
    /\ Forall well_formed new.
Proof. apply main_loop_requests_well_formed. Qed.

(** X19. What [ask_claude_with_retries] does is decided by what line 90
    raises. Anything but a rate-limit error, such as the [TypeError] of a
    constructor that wants more than a message, leaves the function at once:
    nothing slept, printed, sent or created. A rate-limit error is caught,
    and then there is no backoff: [k] rounds are [k] sleeps of ten seconds
    and [k] printed notices, and nothing else. *)
Theorem tool_demo_wrapper_sleeps_ten_each_round
    (raised : exn) (fuel : nat) (new_message : message) (messages : loc)
    (w : world) :
  (is_rate_limit raised = false ->
   ask_claude_with_retries remote raised (S fuel) new_message messages w
   = (Raise raised, w))
  /\ (is_rate_limit raised = true ->
      ask_claude_with_retries remote raised fuel new_message messages w
      = (Diverge,
         {| heap := heap w; sent := sent w;
            slept := slept w ++ replicate fuel 10;
            out := out w ++ replicate fuel (PrintedRateLimit 10) |})).
Proof.
  split; intros Hr.
  - cbn [ask_claude_with_retries]. unfold try_except, bind, raise.
    rewrite Hr. reflexivity.
  - revert w. induction fuel as [|fuel IH]; intros w.
    + cbn. rewrite !app_nil_r. destruct w; reflexivity.
    + cbn [ask_claude_with_retries].
      unfold try_except, bind at 1, raise at 1. rewrite Hr.
      unfold bind, print, sleep.
      change ((10 <? - max_sleep) || (max_sleep <? 10)) with false.
      change (10 <? 0) with false. cbv beta iota.
      rewrite IH. cbn. rewrite <- !app_assoc. reflexivity.
Qed.
End Script.

Lemma dispatch_loop_returns_final_reply_witness :
  exists w',
    main_loop (ask_claude MoreSamples.two_tools_then_answer) 5 (Text opening) 0
      started
    = (Ret final_answer, w')
    /\ length (sent w') = (length (sent started) + 3)%nat.
Proof.
  apply (dispatch_loop_returns_final_reply MoreSamples.two_tools_then_answer 2
           5 (Text opening) 0 started final_answer).
  - intros k Hk. destruct k as [|[|k]].
    + exists MoreSamples.asks_the_weather.
      split; [reflexivity|]. split; [reflexivity|].
      intros w. eexists. eexists. reflexivity.
    + exists asks_the_time.
      split; [reflexivity|]. split; [reflexivity|].
      intros w. eexists. eexists. reflexivity.
    + lia.
  - reflexivity.
  - discriminate.
  - lia.
Defined.

Lemma tool_demo_wrapper_sleeps_ten_each_round_witness :
  ask_claude_with_retries MoreSamples.two_tools_then_answer TypeError 4
    {| role := "user"; body := Text opening |} 0 started
  = (Raise TypeError, started).
Proof.
  apply (proj1 (tool_demo_wrapper_sleeps_ten_each_round
                  MoreSamples.two_tools_then_answer TypeError 3
                  {| role := "user"; body := Text opening |} 0 started)).
  reflexivity.
Defined.

Lemma dispatch_loop_requests_alternate_witness :
  exists new,
    sent (snd (main_loop (ask_claude MoreSamples.two_tools_then_answer) 5
                 (Text opening) 0 started))
    = sent started ++ new
    /\ Forall well_formed new.
Proof.
  apply (dispatch_loop_requests_alternate MoreSamples.two_tools_then_answer 5
           (Text opening) 0 started []); reflexivity.
Defined.

End DispatchExtra.
